(** * package database: result scanning and transaction finalisation

    A shallow embedding of the three operations of the data-access layer,

      - [exec_Scan]   ([func (x exec) Scan]),
      - [query_Scan]  ([func (x query) Scan]),
      - [EndTx]       ([func (SQL) EndTx]),

    together with the collaborators they drive: the logger, [sql.Result],
    [sql.Rows], [sql.Tx] and the caller's row callback.  A Go [error] is an
    [option error] ([None] is nil); a pointer that may be nil is an [option];
    memory reached through pointers is a finite map from locations.  Every
    call on a collaborator leaves an [event], so that "attempts", "never
    reads" and "before any row is consumed" are statements about the events
    of a run. *)

From Stdlib Require Import ZArith Lia.
From stdpp Require Import base option list strings gmap pretty.

Local Open Scope string_scope.
Local Open Scope list_scope.
Local Open Scope nat_scope.

(** ** Errors *)

(** The four sentinels of the package, errors made elsewhere (the driver,
    database/sql, the caller), and the result of [fmt.Errorf] with one [%w]. *)
Inductive error : Type :=
| ErrNoColumnReturned
| ErrDataNotFound
| ErrInvalidArguments
| ErrInvalidTransaction
| foreignError (msg : string)
| wrapError (msg : string) (cause : error).

#[global] Instance error_eq_dec : EqDecision error.
Proof. solve_decision. Defined.

(** [err.Error()] *)
Definition error_Error (e : error) : string :=
  match e with
  | ErrNoColumnReturned => "no columns returned"
  | ErrDataNotFound => "data not found"
  | ErrInvalidArguments => "invalid arguments for scan"
  | ErrInvalidTransaction => "invalid transaction"
  | foreignError msg => msg
  | wrapError msg _ => msg
  end.

(** [errors.Is(e, target)]: [target] is [e] or a cause of it. *)
Fixpoint errors_Is (e target : error) : bool :=
  bool_decide (e = target) ||
  match e with
  | wrapError _ cause => errors_Is cause target
  | _ => false
  end.

(** Errors of database/sql the code names or can meet. *)
Definition sql_ErrNoRows : error := foreignError "sql: no rows in result set".
Definition sql_ErrTxDone : error :=
  foreignError "sql: transaction has already been committed or rolled back".
Definition sql_errRowsClosed : error := foreignError "sql: Rows are closed".
Definition sql_errScanWithoutNext : error :=
  foreignError "sql: Scan called without calling Next".

(** ** Events *)

(** Memory locations ([*int64] cells and scan destinations) are natural
    numbers. *)

(** What a run does to its collaborators, in order. *)
Inductive event : Type :=
| LogErr (err : option error) (msg : string)  (* log.Z().Err(err).Msg(msg) *)
| CallRowsAffected                            (* sqlResult.RowsAffected() *)
| CallLastInsertId                            (* sqlResult.LastInsertId() *)
| CallErr                                     (* sqlRows.Err() *)
| CallColumns                                 (* sqlRows.Columns() *)
| CallNext (ok : bool)                        (* sqlRows.Next() and its answer *)
| CallScan (dest : list nat)                  (* sqlRows.Scan(dest...) *)
| CallClose                                   (* sqlRows.Close() *)
| CallRow (i : Z)                             (* row(i) *)
| CallRollback                                (* tx.Rollback() *)
| CallCommit.                                 (* tx.Commit() *)

#[global] Instance event_eq_dec : EqDecision event.
Proof. solve_decision. Defined.

(** ** The execution result wrapper *)

(** [sql.Result]: what its two methods answer. *)
Record Result : Type := {
  RowsAffected : Z * option error;
  LastInsertId : Z * option error;
}.

Record exec : Type := {
  exec_sqlResult : option Result;
  exec_err : option error;
}.

(** [func (x exec) Scan(rowsAffected, lastInsertID *int64) error], run on the
    memory [h] of [int64] cells; it returns the error, the memory and the
    events. *)
Definition exec_Scan (x : exec) (rowsAffected lastInsertID : option nat)
    (h : gmap nat Z) : option error * gmap nat Z * list event :=
  match exec_err x with
  | Some e => (Some e, h, [LogErr (Some e) "[database:exec]error not nil"])
  | None =>
    match exec_sqlResult x with
    | None =>
      (Some ErrDataNotFound, h,
       [LogErr (Some sql_ErrNoRows) "[database:exec]rows is nil"])
    | Some res =>
      let '(ret, h1, t1) :=
        match rowsAffected with
        | None => (None, h, [])
        | Some p =>
          let '(n, err) := RowsAffected res in
          match err with
          | Some e =>
            (Some (Some e), h,
             [CallRowsAffected;
              LogErr (Some e) "[database:exec]scan rows affected error"])
          | None =>
            if (n <? 1)%Z then
              (Some (Some ErrDataNotFound), h,
               [CallRowsAffected;
                LogErr (Some ErrDataNotFound) "[database:exec]rows affected"])
            else (None, <[p := n]> h, [CallRowsAffected])
          end
        end in
      match ret with
      | Some r => (r, h1, t1)
      | None =>
        match lastInsertID with
        | None => (None, h1, t1)
        | Some q =>
          let '(n, err) := LastInsertId res in
          match err with
          | Some e =>
            (None, h1,
             (t1 ++ [CallLastInsertId;
                     LogErr (Some e) "[database:exec]last inserted id error"])%list)
          | None => (None, <[q := n]> h1, (t1 ++ [CallLastInsertId])%list)
          end
        end
      end
    end
  end.

(** [func (SQL) Exec(sqlResult sql.Result, err error) Exec] *)
Definition Exec (sqlResult : option Result) (err : option error) : exec :=
  {| exec_sqlResult := sqlResult; exec_err := err |}.

(** ** The transaction finaliser *)

(** [sql.Tx]: whether it is finished, whether the context it was begun with
    has ended (and with what error), and what the driver will answer to a
    rollback and to a commit. *)
Record Tx : Type := {
  tx_done : bool;
  tx_ctxErr : option error;
  tx_onRollback : option error;
  tx_onCommit : option error;
}.

Definition tx_finish (tx : Tx) : Tx :=
  {| tx_done := true;
     tx_ctxErr := tx_ctxErr tx;
     tx_onRollback := tx_onRollback tx;
     tx_onCommit := tx_onCommit tx |}.

(** [tx.Rollback()]: [sql.ErrTxDone] on a finished transaction; otherwise the
    transaction is finished and the driver's answer returned. *)
Definition tx_Rollback (tx : Tx) : option error * Tx :=
  if tx_done tx then (Some sql_ErrTxDone, tx)
  else (tx_onRollback tx, tx_finish tx).

(** [tx.Commit()]: it looks at the context first, and when that has ended
    returns its error (or [sql.ErrTxDone] on a finished transaction) and
    leaves the transaction as it is; otherwise [sql.ErrTxDone] on a finished
    transaction, and else the transaction is finished and the driver's
    answer returned. *)
Definition tx_Commit (tx : Tx) : option error * Tx :=
  match tx_ctxErr tx with
  | Some ctxErr =>
    (Some (if tx_done tx then sql_ErrTxDone else ctxErr), tx)
  | None =>
    if tx_done tx then (Some sql_ErrTxDone, tx)
    else (tx_onCommit tx, tx_finish tx)
  end.

(** [func (SQL) EndTx(tx *sql.Tx, err error) error]; it returns the error, the
    transaction as it is left, and the events. *)
Definition EndTx (tx : option Tx) (err : option error)
    : option error * option Tx * list event :=
  match tx with
  | None =>
    (Some ErrInvalidTransaction, None,
     [LogErr (Some ErrInvalidTransaction) "[database:EndTx]"])
  | Some t =>
    match err with
    | Some e =>
      let '(errR, t') := tx_Rollback t in
      let msg :=
        match errR with
        | Some eR => "rollback" +:+ " failed: (" +:+ error_Error eR +:+ ")"
        | None => "rollback"
        end in
      (Some e, Some t',
       [CallRollback; LogErr (Some e) ("[database:EndTx]" +:+ msg)])
    | None =>
      let '(errC, t') := tx_Commit t in
      match errC with
      | Some eC =>
        (Some eC, Some t',
         [CallCommit; LogErr (Some eC) "[database:EndTx]Commit"])
      | None => (None, Some t', [CallCommit])
      end
    end
  end.

(** ** The row-set wrapper *)

(** *** The cursor, [sql.Rows] *)

(** A column value as the driver hands it over. *)
Inductive value : Type :=
| VNull
| VInt (n : Z)
| VBool (b : bool)
| VText (s : string).

(** A destination pointer: the location it writes and, standing for the
    pointer's static type, what [convertAssign] stores there for a driver
    value ([None]: the value does not convert). *)
Record Dest : Type := {
  dst_loc : nat;
  dst_conv : value -> option value;
}.

(** [utils.Array]: a slice of destinations; [None] is the nil slice. *)
Definition Array : Type := option (list Dest).

Definition len (a : Array) : nat :=
  match a with
  | None => 0
  | Some l => length l
  end.

(** The elements passed by [a...]. *)
Definition elems (a : Array) : list Dest :=
  match a with
  | None => []
  | Some l => l
  end.

(** What the driver answers to one more [Next]: a row; a row fetched while
    the query's context ended (the cursor then reports that error); a failure.
    Running out of answers is the end of the result set. *)
Inductive fetch : Type :=
| FetchRow (vals : list value)
| FetchRowDone (vals : list value) (e : error)
| FetchFail (e : error).

Record Rows : Type := {
  rows_closed : bool;
  rows_lasterr : option error;        (* what Err() reports *)
  rows_columns : list string;
  rows_lastcols : option (list value); (* the row the last Next fetched *)
  rows_pending : list fetch;
}.

(** [rs.Err()] *)
Definition rows_Err (r : Rows) : option error := rows_lasterr r.

(** [rs.Close()]; its own error result is dropped by the one caller here. *)
Definition rows_Close (r : Rows) : Rows :=
  {| rows_closed := true;
     rows_lasterr := rows_lasterr r;
     rows_columns := rows_columns r;
     rows_lastcols := rows_lastcols r;
     rows_pending := rows_pending r |}.

(** [rs.Columns()] *)
Definition rows_Columns (r : Rows) : list string * option error :=
  if rows_closed r then
    ([], Some (default sql_errRowsClosed (rows_lasterr r)))
  else (rows_columns r, None).

(** [rs.Next()]: false on a closed or failed cursor; otherwise the driver's
    next answer.  The end of the result set and a failure close the cursor,
    and only the failure is kept for [Err]. *)
Definition rows_Next (r : Rows) : bool * Rows :=
  if rows_closed r || bool_decide (is_Some (rows_lasterr r)) then (false, r)
  else
    match rows_pending r with
    | [] => (false, rows_Close r)
    | FetchRow vals :: rest =>
      (true,
       {| rows_closed := false;
          rows_lasterr := None;
          rows_columns := rows_columns r;
          rows_lastcols := Some vals;
          rows_pending := rest |})
    | FetchRowDone vals e :: rest =>
      (true,
       {| rows_closed := false;
          rows_lasterr := Some e;
          rows_columns := rows_columns r;
          rows_lastcols := Some vals;
          rows_pending := rest |})
    | FetchFail e :: rest =>
      (false,
       {| rows_closed := true;
          rows_lasterr := Some e;
          rows_columns := rows_columns r;
          rows_lastcols := rows_lastcols r;
          rows_pending := rest |})
    end.

Definition sql_errScanColumn (i : nat) : error :=
  foreignError ("sql: Scan error on column index " +:+ pretty i).

Definition sql_errScanCount (ncols ndest : nat) : error :=
  foreignError ("sql: expected " +:+ pretty ncols +:+
                " destination arguments in Scan, not " +:+ pretty ndest).

(** The column-by-column assignment of [rs.Scan]: it stops at the first value
    that does not convert, keeping what it has already written. *)
Fixpoint convertAssignRows (i : nat) (dest : list Dest) (vals : list value)
    (h : gmap nat value) : option error * gmap nat value :=
  match dest, vals with
  | d :: dest', v :: vals' =>
    match dst_conv d v with
    | Some v' => convertAssignRows (S i) dest' vals' (<[dst_loc d := v']> h)
    | None => (Some (sql_errScanColumn i), h)
    end
  | _, _ => (None, h)
  end.

(** [rs.Scan(dest...)] on the memory [h] of destinations. *)
Definition rows_Scan (dest : list Dest) (r : Rows) (h : gmap nat value)
    : option error * gmap nat value :=
  match rows_lasterr r with
  | Some e => (Some e, h)
  | None =>
    if rows_closed r then (Some sql_errRowsClosed, h)
    else
      match rows_lastcols r with
      | None => (Some sql_errScanWithoutNext, h)
      | Some vals =>
        if bool_decide (length dest = length vals) then
          convertAssignRows 0 dest vals h
        else (Some (sql_errScanCount (length vals) (length dest)), h)
      end
  end.

(** *** The world [query.Scan] runs in *)

(** The caller's side: the callback's own state, the memory the destinations
    point into, and the events so far. *)
Record Mem (U : Type) : Type := {
  m_user : U;
  m_heap : gmap nat value;
  m_trace : list event;
}.
Arguments m_user {U} _.
Arguments m_heap {U} _.
Arguments m_trace {U} _.

Record query : Type := {
  query_sqlRows : option Rows;
  query_err : option error;
}.

(** [func (SQL) Query(sqlRows *sql.Rows, err error) Query] *)
Definition Query (sqlRows : option Rows) (err : option error) : query :=
  {| query_sqlRows := sqlRows; query_err := err |}.

(** Go's [int] is 64 bits wide; [idx++] wraps. *)
Definition int_incr (i : Z) : Z :=
  if (i =? 9223372036854775807)%Z then (-9223372036854775808)%Z
  else (i + 1)%Z.

(** [fmt.Errorf("%w: [%d] columns on [%d] destinations",
    ErrInvalidArguments, ncols, ndest)] *)
Definition errColumnsOnDestinations (ncols ndest : nat) : error :=
  wrapError
    (error_Error ErrInvalidArguments +:+ ": [" +:+ pretty ncols +:+
     "] columns on [" +:+ pretty ndest +:+ "] destinations")
    ErrInvalidArguments.

(** How one turn of the row loop ends: on to the next [Next] with the index
    and the [err] variable as they now are, out of the loop, or out of
    [Scan]. *)
Inductive turn : Type :=
| Continue (idx : Z) (err : option error)
| Break
| Return (err : option error).

Section QueryScan.
Context {U : Type}.

(** The caller's callback [row func(i int) utils.Array]: a Go closure, so it
    may read and change state of its own each time it is called. *)
Definition RowFunc : Type := Z -> U -> Array * U.

Definition emit (evs : list event) (m : Mem U) : Mem U :=
  {| m_user := m_user m;
     m_heap := m_heap m;
     m_trace := (m_trace m ++ evs)%list |}.

(** One evaluation of [row(idx)]. *)
Definition call_row (row : RowFunc) (idx : Z) (m : Mem U) : Array * Mem U :=
  let '(a, u) := row idx (m_user m) in
  (a, {| m_user := u;
         m_heap := m_heap m;
         m_trace := (m_trace m ++ [CallRow idx])%list |}).

(** One evaluation of [x.sqlRows.Scan(dest...)]. *)
Definition call_Scan (dest : list Dest) (r : Rows) (m : Mem U)
    : option error * Mem U :=
  let '(e, h) := rows_Scan dest r (m_heap m) in
  (e, {| m_user := m_user m;
         m_heap := h;
         m_trace := (m_trace m ++ [CallScan (dst_loc <$> dest)])%list |}).

(** The body of [for x.sqlRows.Next() { ... }], entered after [Next] answered
    true.  [row(idx)] is evaluated anew wherever the source writes it. *)
Definition scan_row (columns : list string) (row : RowFunc) (idx : Z)
    (err : option error) (r : Rows) (m : Mem U) : turn * Mem U :=
  match rows_Err r with
  | Some _ =>
    (Return (rows_Err r),
     emit [CallErr; CallErr;
           LogErr (rows_Err r) "[database:query]error to scan sql rows";
           CallErr] m)
  | None =>
    let m := emit [CallErr] m in
    let '(a1, m) := call_row row idx m in
    match a1 with
    | None => (Break, m)
    | Some _ =>
      let '(a2, m) := call_row row idx m in
      if (len a2 <? 1)%nat then (Continue idx err, m)
      else
        let '(a3, m) := call_row row idx m in
        if negb (len a3 =? length columns)%nat then
          let '(a4, m) := call_row row idx m in
          let err := errColumnsOnDestinations (length columns) (len a4) in
          (Return (Some err),
           emit [LogErr (Some err)
                   "[database:query]error invalid args to scan"] m)
        else
          let '(a5, m) := call_row row idx m in
          let '(err, m) := call_Scan (elems a5) r m in
          match err with
          | Some e =>
            (Return (Some e),
             emit [LogErr (Some e) "[database:query] failed to scan row"] m)
          | None => (Continue (int_incr idx) err, m)
          end
    end
  end.

(** The row loop and the [return err] after it.  [fuel] bounds the number of
    [Next] calls; [scan_rows] below gives it one more than the cursor has
    answers pending, which is never used up. *)
Fixpoint scan_rows_fuel (fuel : nat) (columns : list string) (row : RowFunc)
    (idx : Z) (err : option error) (r : Rows) (m : Mem U)
    : option error * Rows * Mem U :=
  match fuel with
  | O => (err, r, m)
  | S fuel =>
    let '(ok, r) := rows_Next r in
    let m := emit [CallNext ok] m in
    if ok then
      match scan_row columns row idx err r m with
      | (Continue idx err, m) => scan_rows_fuel fuel columns row idx err r m
      | (Break, m) => (err, r, m)
      | (Return e, m) => (e, r, m)
      end
    else (err, r, m)
  end.

Definition scan_rows (columns : list string) (row : RowFunc) (idx : Z)
    (err : option error) (r : Rows) (m : Mem U)
    : option error * Rows * Mem U :=
  scan_rows_fuel (S (length (rows_pending r))) columns row idx err r m.

(** [Scan] from [x.sqlRows.Columns()] to the last [return], the part the
    deferred [Close] covers. *)
Definition scan_columns (row : RowFunc) (r : Rows) (m : Mem U)
    : option error * Rows * Mem U :=
  let '(columns, err) := rows_Columns r in
  let m := emit [CallColumns] m in
  match err with
  | Some e => (Some e, r, emit [LogErr (Some e) "[database:query]columns"] m)
  | None =>
    if (length columns <? 1)%nat then
      (Some ErrNoColumnReturned, r,
       emit [LogErr (Some ErrNoColumnReturned)
               "[database:query]count columns length"] m)
    else scan_rows columns row 0 err r m
  end.

(** [func (x query) Scan(row func(i int) utils.Array) error]; it returns the
    error, the cursor as it is left, and the caller's side. *)
Definition query_Scan (x : query) (row : RowFunc) (m : Mem U)
    : option error * option Rows * Mem U :=
  match query_err x with
  | Some e =>
    (Some e, query_sqlRows x,
     emit [LogErr (Some e) "[database:query]error not nil"] m)
  | None =>
    match query_sqlRows x with
    | None =>
      (Some ErrDataNotFound, None,
       emit [LogErr (Some sql_ErrNoRows) "[database:query]rows is nil"] m)
    | Some r =>
      match rows_Err r with
      | Some e => (Some e, Some r, emit [CallErr] m)
      | None =>
        let m := emit [CallErr] m in
        (* defer x.sqlRows.Close() *)
        let '(ret, r, m) := scan_columns row r m in
        (ret, Some (rows_Close r), emit [CallClose] m)
      end
    end
  end.

End QueryScan.

(** A callback that keeps no state: its answer depends on the index alone. *)
Definition pure_row (f : Z -> Array) : @RowFunc unit := fun i u => (f i, u).

Definition mem0 (h : gmap nat value) : Mem unit :=
  {| m_user := tt; m_heap := h; m_trace := [] |}.

(** The message [EndTx] logs after its rollback attempt answered [errR]. *)
Definition rollback_msg (errR : option error) : string :=
  match errR with
  | Some eR => "[database:EndTx]rollback failed: (" +:+ error_Error eR +:+ ")"
  | None => "[database:EndTx]rollback"
  end.

(** What [EndTx] logs after its commit attempt answered [errC]. *)
Definition commit_log (errC : option error) : list event :=
  match errC with
  | Some eC => [LogErr (Some eC) "[database:EndTx]Commit"]
  | None => []
  end.

(** Scanning has begun once the two entry checks and the cursor's own error
    check are passed: from there on the deferred [Close] is in force. *)
Definition scan_begun (x : query) : bool :=
  match query_err x, query_sqlRows x with
  | None, Some r => bool_decide (rows_Err r = None)
  | _, _ => false
  end.

(** The state after [n] evaluations of [row(idx)] from [u], and the callback
    giving the answer [a] on each of the first [n]. *)
Definition row_calls {U : Type} (row : @RowFunc U) (idx : Z) (n : nat) (u : U)
    : U :=
  Nat.iter n (fun u => (row idx u).2) u.

Definition row_answers {U : Type} (row : @RowFunc U) (idx : Z) (n : nat)
    (u : U) (a : Array) : Prop :=
  forall k, k < n -> (row idx (row_calls row idx k u)).1 = a.

(** Where the row loop stands before a [Next]: index, [err], cursor, caller's
    side. *)
Definition LoopState (U : Type) : Type := Z * option error * Rows * Mem U.

(** [loop_reaches columns row st st']: from [st] the loop comes to stand at
    [st'] after zero or more turns that went on to the next [Next]. *)
Inductive loop_reaches {U : Type} (columns : list string) (row : @RowFunc U)
    : LoopState U -> LoopState U -> Prop :=
| reaches_here st : loop_reaches columns row st st
| reaches_turn idx err r m r1 idx1 err1 m1 st :
    rows_Next r = (true, r1) ->
    scan_row columns row idx err r1 (emit [CallNext true] m)
      = (Continue idx1 err1, m1) ->
    loop_reaches columns row (idx1, err1, r1, m1) st ->
    loop_reaches columns row (idx, err, r, m) st.

(** The loop run from a state. *)
Definition scan_rows_from {U : Type} (columns : list string)
    (row : @RowFunc U) (st : LoopState U) : option error * Rows * Mem U :=
  let '(idx, err, r, m) := st in scan_rows columns row idx err r m.

(** [Scan x row m] has passed its checks with the columns [columns] and its
    row loop stands at [st]. *)
Definition scan_at {U : Type} (x : query) (row : @RowFunc U) (m : Mem U)
    (columns : list string) (st : LoopState U) : Prop :=
  exists r0,
    query_err x = None /\ query_sqlRows x = Some r0 /\
    rows_Err r0 = None /\ rows_Columns r0 = (columns, None) /\
    columns <> [] /\
    loop_reaches columns row
      (0%Z, None, r0, emit [CallColumns] (emit [CallErr] m)) st.

(** ** Sample cursors and callbacks *)

(** A fresh cursor over the given columns and rows. *)
Definition open_cursor (columns : list string) (rows : list (list value))
    : Rows :=
  {| rows_closed := false;
     rows_lasterr := None;
     rows_columns := columns;
     rows_lastcols := None;
     rows_pending := FetchRow <$> rows |}.

(** A cursor that is still open and already reports an error, as one whose
    query context has just ended. *)
Definition cancelled_cursor : Rows :=
  {| rows_closed := false;
     rows_lasterr := Some (foreignError "context canceled");
     rows_columns := ["id"];
     rows_lastcols := None;
     rows_pending := [FetchRow [VInt 1]] |}.

(** A cursor whose driver fails on the second fetch. *)
Definition broken_cursor : Rows :=
  {| rows_closed := false;
     rows_lasterr := None;
     rows_columns := ["id"];
     rows_lastcols := None;
     rows_pending :=
       [FetchRow [VInt 1]; FetchFail (foreignError "driver: bad connection")] |}.

(** A destination of type [*interface{}]: every value is stored as it is. *)
Definition any_dest (l : nat) : Dest := {| dst_loc := l; dst_conv := Some |}.

(** One pair of destinations for every row. *)
Definition one_pair (_ : Z) : Array := Some [any_dest 0; any_dest 1].

(** One destination for every row. *)
Definition one_cell (_ : Z) : Array := Some [any_dest 0].

(** Skip every row. *)
Definition skip_all (_ : Z) : Array := Some [].

(** Two rows into two pairs of cells, then stop. *)
Definition two_then_stop (i : Z) : Array :=
  if (i =? 0)%Z then Some [any_dest 10; any_dest 11]
  else if (i =? 1)%Z then Some [any_dest 20; any_dest 21]
  else None.

(** ** Counting events *)

(** The calls that end a transaction. *)
Definition is_terminal_call (ev : event) : bool :=
  match ev with
  | CallRollback | CallCommit => true
  | _ => false
  end.

(** The [rows.Scan] calls. *)
Definition is_CallScan (ev : event) : bool :=
  match ev with
  | CallScan _ => true
  | _ => false
  end.

(** Every callback call in [evs] is at the index reached by counting up
    from [idx], one step for each [rows.Scan] before it. *)
Fixpoint indices_follow (idx : Z) (evs : list event) : bool :=
  match evs with
  | [] => true
  | CallRow i :: evs' => (i =? idx)%Z && indices_follow idx evs'
  | CallScan _ :: evs' => indices_follow (int_incr idx) evs'
  | _ :: evs' => indices_follow idx evs'
  end.

(** How many events of a run satisfy [p]. *)
Definition count_events (p : event -> bool) (evs : list event) : nat :=
  length (filter (fun ev => p ev = true) evs).

(** ** What a scan should leave in memory *)

(** What binding the row [vals] to the destinations [ds] leaves. *)
Definition write_row (ds : list Dest) (vals : list value)
    (h : gmap nat value) : gmap nat value :=
  (convertAssignRows 0 ds vals h).2.

(** Row after row into the destinations a stateless callback [f] gives for
    the indices [idx], [idx + 1], ... *)
Fixpoint bind_rows (f : Z -> Array) (idx : Z) (rows : list (list value))
    (h : gmap nat value) : gmap nat value :=
  match rows with
  | [] => h
  | vals :: rest =>
    bind_rows f (idx + 1) rest (write_row (elems (f idx)) vals h)
  end.

(** At [idx] the callback gives one destination per column, and each takes
    its value of the row [vals]. *)
Definition row_binds (columns : list string) (f : Z -> Array) (idx : Z)
    (vals : list value) : Prop :=
  exists ds,
    f idx = Some ds /\ ds <> [] /\ length ds = length columns /\
    Forall2 (fun d v => is_Some (dst_conv d v)) ds vals.

(** From [m] to [m1] events were only added, and memory changed only at
    locations handed to some [rows.Scan] among them. *)
Definition writes_within {U : Type} (m m1 : Mem U) : Prop :=
  exists evs,
    m_trace m1 = m_trace m ++ evs /\
    forall l, (forall ds, CallScan ds ∈ evs -> l ∉ ds) ->
              m_heap m1 !! l = m_heap m !! l.

(** A destination of type [*int64]: only integers are taken. *)
Definition int_dest (l : nat) : Dest :=
  {| dst_loc := l;
     dst_conv := fun v => match v with VInt _ => Some v | _ => None end |}.

(** One integer destination for every row. *)
Definition one_int (_ : Z) : Array := Some [int_dest 0].

(** Stop at once. *)
Definition stop_all (_ : Z) : Array := None.

(** A callback with state: it counts how often it has been called, and
    always gives the one destination. *)
Definition counting_cell : @RowFunc nat :=
  fun _ calls => (Some [any_dest 0], S calls).

(** Two rows of one column. *)
Definition two_ids : Rows := open_cursor ["id"] [[VInt 1]; [VInt 2]].

(** [two_ids] after its first [Next]. *)
Definition two_ids_at_first : Rows :=
  {| rows_closed := false;
     rows_lasterr := None;
     rows_columns := ["id"];
     rows_lastcols := Some [VInt 1];
     rows_pending := [FetchRow [VInt 2]] |}.

(** The caller's side when [Scan] enters its row loop from [mem0 ∅]. *)
Definition mem_at_loop : Mem unit :=
  {| m_user := tt; m_heap := ∅; m_trace := [CallErr; CallColumns] |}.

(** A cursor whose first row arrives as the query's context ends. *)
Definition interrupted_cursor : Rows :=
  {| rows_closed := false;
     rows_lasterr := None;
     rows_columns := ["id"];
     rows_lastcols := None;
     rows_pending :=
       [FetchRowDone [VInt 1] (foreignError "context canceled");
        FetchRow [VInt 2]] |}.

(** * package v1: the user-status handler *)

(** [http.StatusOK], [http.StatusBadRequest],
    [http.StatusInternalServerError] *)
Definition StatusOK : Z := 200.
Definition StatusBadRequest : Z := 400.
Definition StatusInternalServerError : Z := 500.

Definition BooleanTextTrue : string := "true".
Definition BooleanTextFalse : string := "false".

Definition ErrInvalidIsActive : error := foreignError "invalid is_active".

(** [response.MsgFailed] and [response.MsgSuccess], whatever their text. *)
Inductive Msg : Type := MsgFailed | MsgSuccess.

(** What the handler hands to [c.JSON]: [response.NewResponseError(code,
    msg, text)] or [response.NewResponse(code, msg, nil)]. *)
Inductive Body : Type :=
| NewResponseError (code : Z) (msg : Msg) (text : string)
| NewResponse (code : Z) (msg : Msg).

Definition body_code (b : Body) : Z :=
  match b with
  | NewResponseError code _ _ => code
  | NewResponse code _ => code
  end.

(** One handled request: the status and body given to [c.JSON], the error
    the handler returns (that of [c.JSON]), the calls made on the use case,
    and the log. *)
Record Reply : Type := {
  reply_status : Z;
  reply_body : Body;
  reply_err : option error;
  reply_calls : list (Z * bool);
  reply_log : list event;
}.

Section UpdateUserStatus.

(** The collaborators: [strconv.ParseInt(s, 10, 64)], the use case's
    [UpdateStatus] on [entities.UpdateUserStatus{UserID, IsActive}], and
    what [c.JSON] returns once it has written. *)
Variable ParseInt : string -> Z + error.
Variable UpdateStatus : Z -> bool -> option error.
Variable JSON : Z -> Body -> option error.

Definition reply (status : Z) (body : Body) (calls : list (Z * bool))
    (log : list event) : Reply :=
  {| reply_status := status;
     reply_body := body;
     reply_err := JSON status body;
     reply_calls := calls;
     reply_log := log |}.

(** [func (h *handlers) UpdateUserStatus(c echo.Context) error], on the path
    parameter [id] and the query parameter [is_active].  The request context
    with its 30-second deadline goes to the use case only, whose answer is a
    parameter here. *)
Definition UpdateUserStatus (id is_active : string) : Reply :=
  match ParseInt id with
  | inr err =>
    reply StatusBadRequest
      (NewResponseError StatusBadRequest MsgFailed (error_Error err))
      [] [LogErr (Some err) "[handlers]UpdateUser.ParseParam"]
  | inl userID =>
    let update (isActive : bool) :=
      match UpdateStatus userID isActive with
      | Some err =>
        reply StatusBadRequest
          (NewResponseError StatusInternalServerError MsgFailed
             (error_Error err))
          [(userID, isActive)] []
      | None =>
        reply StatusOK (NewResponse StatusOK MsgSuccess)
          [(userID, isActive)] []
      end in
    if String.eqb is_active BooleanTextFalse then update false
    else if String.eqb is_active BooleanTextTrue then update true
    else
      reply StatusBadRequest
        (NewResponseError StatusBadRequest MsgFailed
           (error_Error ErrInvalidIsActive))
        [] []
  end.

End UpdateUserStatus.

(** Sample collaborators: ids "7" and "8" parse, and user 8 cannot be
    updated. *)
Definition sample_ParseInt (s : string) : Z + error :=
  if String.eqb s "7" then inl 7%Z
  else if String.eqb s "8" then inl 8%Z
  else inr (foreignError "strconv.ParseInt: invalid syntax").

Definition sample_UpdateStatus (userID : Z) (isActive : bool)
    : option error :=
  if (userID =? 8)%Z then Some ErrDataNotFound else None.

Definition sample_JSON (status : Z) (body : Body) : option error := None.

(** * Properties *)

(** An event is not among a short, explicit list of other events. *)
Ltac no_such_event :=
  let H := fresh in
  intros H; apply list_elem_of_In in H; simpl in H;
  repeat (destruct H as [H|H]; [discriminate H |]); exact H.

(** The first [n] answers of the callback, as hypotheses [H0], [H1], ... *)
Ltac first_answers Hans :=
  let H0 := fresh "H0" in
  let H1 := fresh "H1" in
  let H2 := fresh "H2" in
  let H3 := fresh "H3" in
  pose proof (Hans 0 ltac:(lia)) as H0;
  try pose proof (Hans 1 ltac:(lia)) as H1;
  try pose proof (Hans 2 ltac:(lia)) as H2;
  try pose proof (Hans 3 ltac:(lia)) as H3;
  unfold row_calls in *; cbn [Nat.iter nat_rect] in *.

(** ** The transaction finaliser *)

Lemma tx_Rollback_done (tx : Tx) : tx_done (tx_Rollback tx).2 = true.
Proof. unfold tx_Rollback. destruct (tx_done tx) eqn:E; simpl; auto. Qed.

(** After a commit the transaction is finished, or its context had ended
    and it is as before. *)
Lemma tx_Commit_done (tx : Tx) :
  tx_done (tx_Commit tx).2 = true \/
  (tx_ctxErr tx <> None /\ (tx_Commit tx).2 = tx).
Proof.
  unfold tx_Commit. destruct (tx_ctxErr tx); [by right |].
  destruct (tx_done tx) eqn:E; simpl; auto.
Qed.

(** C1: for every transaction handle [tx] and every non-nil [e],
    [EndTx(tx, e)] makes one rollback attempt on [tx] (and no commit), and
    returns [e] itself, whatever the rollback answered: a rollback failure
    only shows in the logged message. *)
Theorem EndTx_rollback_returns_original (tx : Tx) (e : error) :
  EndTx (Some tx) (Some e)
  = (Some e, Some (tx_Rollback tx).2,
     [CallRollback; LogErr (Some e) (rollback_msg (tx_Rollback tx).1)]).
Proof.
  unfold EndTx. destruct (tx_Rollback tx) as [errR t'] eqn:E. simpl.
  destruct errR; reflexivity.
Qed.

(** A rollback that itself fails with [eR] does not replace [e]. *)
Lemma EndTx_rollback_failure_not_masking (e eR : error) :
  let tx := {| tx_done := false; tx_ctxErr := None;
               tx_onRollback := Some eR; tx_onCommit := None |} in
  (EndTx (Some tx) (Some e)).1.1 = Some e.
Proof. reflexivity. Qed.

(** C4: for every transaction handle [tx], [EndTx(tx, nil)] makes one commit
    attempt (and no rollback) and returns what the commit answered: the
    commit error when it fails, nil only when it succeeds. *)
Theorem EndTx_commit_result (tx : Tx) :
  EndTx (Some tx) None
  = ((tx_Commit tx).1, Some (tx_Commit tx).2,
     CallCommit :: commit_log (tx_Commit tx).1).
Proof.
  unfold EndTx. destruct (tx_Commit tx) as [errC t'] eqn:E. simpl.
  destruct errC; reflexivity.
Qed.

(** A handle whose commit fails with [eC]: [EndTx] returns [eC], not nil. *)
Lemma EndTx_commit_failure (eC : error) :
  let tx := {| tx_done := false; tx_ctxErr := None;
               tx_onRollback := None; tx_onCommit := Some eC |} in
  (EndTx (Some tx) None).1.1 = Some eC.
Proof. reflexivity. Qed.

(** ** The execution result wrapper *)

(** C5: with a nil wrapped error and a result handle, when the affected-row
    count is asked for and the handle reports a count below 1, [Scan] returns
    [ErrDataNotFound] and writes nothing: the memory, the cell behind
    [rowsAffected] included, is as before, and the last-insert id is not
    read. *)
Theorem exec_Scan_no_rows_affected (res : Result) (p : nat) (q : option nat)
    (h : gmap nat Z) (n : Z) :
  RowsAffected res = (n, None) -> (n < 1)%Z ->
  exec_Scan (Exec (Some res) None) (Some p) q h
  = (Some ErrDataNotFound, h,
     [CallRowsAffected;
      LogErr (Some ErrDataNotFound) "[database:exec]rows affected"]).
Proof.
  intros Hn Hlt. unfold exec_Scan, Exec. simpl. rewrite Hn.
  destruct (Z.ltb_spec n 1) as [_|Hge]; [reflexivity | lia].
Qed.

Lemma exec_Scan_no_rows_affected_witness :
  exec_Scan
    (Exec (Some {| RowsAffected := (0%Z, None);
                   LastInsertId := (7%Z, None) |}) None)
    (Some 1) (Some 2) {[ 1 := 42%Z ]}
  = (Some ErrDataNotFound, {[ 1 := 42%Z ]},
     [CallRowsAffected;
      LogErr (Some ErrDataNotFound) "[database:exec]rows affected"]).
Proof.
  apply (exec_Scan_no_rows_affected
           {| RowsAffected := (0%Z, None); LastInsertId := (7%Z, None) |}
           1 (Some 2) {[ 1 := 42%Z ]} 0%Z); [reflexivity | lia].
Defined.

(** C10: with a nil wrapped error and a result handle, when neither output
    is asked for, [Scan] returns nil without calling the handle at all (no
    event), whatever count the handle would have reported, zero included. *)
Theorem exec_Scan_nothing_requested (res : Result) (h : gmap nat Z) :
  exec_Scan (Exec (Some res) None) None None h = (None, h, []).
Proof. reflexivity. Qed.

(** The count that would have meant [ErrDataNotFound] when asked for. *)
Lemma exec_Scan_zero_rows_unrequested (h : gmap nat Z) :
  let res := {| RowsAffected := (0%Z, None); LastInsertId := (0%Z, None) |} in
  (exec_Scan (Exec (Some res) None) None None h).1.1 = None /\
  (exec_Scan (Exec (Some res) None) (Some 0) None h).1.1
    = Some ErrDataNotFound.
Proof. split; reflexivity. Qed.

(** ** The row-set wrapper *)

Section QueryScanFacts.
Context {U : Type}.
Implicit Types (row : @RowFunc U) (m : Mem U) (r : Rows).
Implicit Types (columns : list string) (st : LoopState U).

Lemma emit_emit evs1 evs2 m :
  emit evs2 (emit evs1 m) = emit (evs1 ++ evs2) m.
Proof. unfold emit. simpl. by rewrite <- app_assoc. Qed.

(** *** Termination of the row loop *)

(** A [Next] that answers true uses up one pending answer of the driver. *)
Lemma rows_Next_true r r1 :
  rows_Next r = (true, r1) ->
  length (rows_pending r) = S (length (rows_pending r1)).
Proof.
  unfold rows_Next. destruct (_ || _); [discriminate |].
  destruct (rows_pending r) as [|[vals|vals e|e] rest]; intros [= <-];
    reflexivity.
Qed.

(** A [Next] that answers false leaves a cursor on which [Next] stays false. *)
Lemma rows_Next_false r r1 :
  rows_Next r = (false, r1) -> rows_pending r1 = rows_pending r \/
  rows_closed r1 = true.
Proof.
  unfold rows_Next. destruct (_ || _); [intros [= <-]; by left |].
  destruct (rows_pending r) as [|[vals|vals e|e] rest]; intros [= <-];
    by right.
Qed.

(** Any fuel above the number of pending answers gives the same run. *)
Lemma scan_rows_fuel_enough columns row f1 :
  forall f2 idx err r m,
    length (rows_pending r) < f1 -> length (rows_pending r) < f2 ->
    scan_rows_fuel f1 columns row idx err r m
    = scan_rows_fuel f2 columns row idx err r m.
Proof.
  induction f1 as [|f1 IH]; intros f2 idx err r m H1 H2; [lia |].
  destruct f2 as [|f2]; [lia |]. simpl.
  destruct (rows_Next r) as [ok r1] eqn:EN.
  destruct ok; [| reflexivity].
  apply rows_Next_true in EN.
  destruct (scan_row columns row idx err r1 _) as [[idx1 err1| |e] m1];
    try reflexivity.
  apply IH; lia.
Qed.

(** The loop as the source has it: one [Next], one turn, and again. *)
Lemma scan_rows_unfold columns row idx err r m :
  scan_rows columns row idx err r m
  = match rows_Next r with
    | (true, r1) =>
      match scan_row columns row idx err r1 (emit [CallNext true] m) with
      | (Continue idx1 err1, m1) => scan_rows columns row idx1 err1 r1 m1
      | (Break, m1) => (err, r1, m1)
      | (Return e, m1) => (e, r1, m1)
      end
    | (false, r1) => (err, r1, emit [CallNext false] m)
    end.
Proof.
  unfold scan_rows at 1. cbn [scan_rows_fuel].
  destruct (rows_Next r) as [ok r1] eqn:EN.
  destruct ok; [| reflexivity].
  apply rows_Next_true in EN.
  destruct (scan_row columns row idx err r1 _) as [[idx1 err1| |e] m1];
    try reflexivity.
  unfold scan_rows. apply scan_rows_fuel_enough; lia.
Qed.

(** *** Reaching a row *)

Lemma loop_reaches_run columns row st st' :
  loop_reaches columns row st st' ->
  scan_rows_from columns row st = scan_rows_from columns row st'.
Proof.
  induction 1 as [st | idx err r m r1 idx1 err1 m1 st HN HT _ IH];
    [reflexivity |].
  rewrite <- IH. cbn [scan_rows_from].
  rewrite scan_rows_unfold, HN, HT. reflexivity.
Qed.

Lemma loop_reaches_trans columns row st1 st2 st3 :
  loop_reaches columns row st1 st2 -> loop_reaches columns row st2 st3 ->
  loop_reaches columns row st1 st3.
Proof.
  induction 1 as [st | idx err r m r1 idx1 err1 m1 st HN HT _ IH]; [auto |].
  intros H3. eapply reaches_turn; eauto.
Qed.

Lemma scan_at_turn x row m columns idx err r mi r1 idx1 err1 m1 :
  scan_at x row m columns (idx, err, r, mi) ->
  rows_Next r = (true, r1) ->
  scan_row columns row idx err r1 (emit [CallNext true] mi)
    = (Continue idx1 err1, m1) ->
  scan_at x row m columns (idx1, err1, r1, m1).
Proof.
  intros (r0 & He & Hr & HE & HC & Hne & Hreach) HN HT.
  exists r0. repeat split; auto.
  eapply loop_reaches_trans; [exact Hreach |].
  eapply reaches_turn; [exact HN | exact HT | apply reaches_here].
Qed.

(** What [Scan] returns is what the loop returns from any state it reaches,
    followed by the deferred [Close]. *)
Lemma scan_at_result x row m columns st :
  scan_at x row m columns st ->
  query_Scan x row m
  = let '(ret, r, m') := scan_rows_from columns row st in
    (ret, Some (rows_Close r), emit [CallClose] m').
Proof.
  intros (r0 & He & Hr & HE & HC & Hne & Hreach).
  apply loop_reaches_run in Hreach. rewrite <- Hreach.
  unfold query_Scan, scan_columns. rewrite He, Hr, HE, HC.
  destruct columns as [|c columns]; [done |]. reflexivity.
Qed.

(** The [err] variable is nil whenever the loop stands before a [Next]. *)
Lemma scan_row_continue_err columns row idx err r m idx1 err1 m1 :
  scan_row columns row idx err r m = (Continue idx1 err1, m1) ->
  err1 = err \/ err1 = None.
Proof.
  unfold scan_row. destruct (rows_Err r); [discriminate |].
  destruct (call_row row idx _) as [[l1|] ma]; [| discriminate].
  destruct (call_row row idx ma) as [a2 mb].
  destruct (Nat.ltb (len a2) 1); [intros [= _ <- _]; by left |].
  destruct (call_row row idx mb) as [a3 mc].
  destruct (negb _); [destruct (call_row row idx mc); discriminate |].
  destruct (call_row row idx mc) as [a5 md].
  destruct (call_Scan _ r md) as [[e|] me]; [discriminate |].
  intros [= _ <- _]. by right.
Qed.

Lemma loop_reaches_err columns row st st' :
  loop_reaches columns row st st' -> st.1.1.2 = None -> st'.1.1.2 = None.
Proof.
  induction 1 as [st | idx err r m r1 idx1 err1 m1 st HN HT _ IH]; [auto |].
  simpl. intros ->. apply IH. simpl.
  destruct (scan_row_continue_err _ _ _ _ _ _ _ _ _ HT); auto.
Qed.

Lemma scan_at_err x row m columns idx err r mi :
  scan_at x row m columns (idx, err, r, mi) -> err = None.
Proof.
  intros (r0 & _ & _ & _ & _ & _ & Hreach).
  by apply loop_reaches_err in Hreach.
Qed.

End QueryScanFacts.

Section QueryScanChecks.
Context {U : Type}.
Implicit Types (row : @RowFunc U) (m : Mem U) (r : Rows).

(** C7: with a nil wrapped error and a usable cursor that reports zero
    columns, [Scan] returns [ErrNoColumnReturned] having called only [Err],
    [Columns] and the deferred [Close]: no [Next], no callback, no
    [rows.Scan]; the cursor's pending rows, the callback's state and the
    destinations' memory are untouched. *)
Theorem query_Scan_no_columns row r m :
  rows_Err r = None -> rows_Columns r = ([], None) ->
  query_Scan (Query (Some r) None) row m
  = (Some ErrNoColumnReturned,
     Some (rows_Close r),
     {| m_user := m_user m;
        m_heap := m_heap m;
        m_trace :=
          m_trace m ++
          [CallErr; CallColumns;
           LogErr (Some ErrNoColumnReturned)
             "[database:query]count columns length";
           CallClose] |}).
Proof.
  intros HE HC. unfold query_Scan, scan_columns, Query. simpl.
  rewrite HE, HC. simpl. unfold emit. simpl.
  by rewrite <- !app_assoc.
Qed.

(** Before scanning has begun, [Scan] returns without calling [Close]: the
    cursor is left as it was handed in. *)
Lemma query_Scan_early_exit (x : query) row m :
  scan_begun x = false ->
  (query_Scan x row m).1.2 = query_sqlRows x /\
  exists evs,
    m_trace (query_Scan x row m).2 = m_trace m ++ evs /\
    CallClose ∉ evs.
Proof.
  unfold scan_begun, query_Scan.
  destruct (query_err x) as [e|].
  - intros _. split; [reflexivity |]. eexists. split; [reflexivity |].
    no_such_event.
  - destruct (query_sqlRows x) as [r|].
    + intros HE. apply bool_decide_eq_false in HE.
      destruct (rows_Err r) as [e|]; [| done].
      split; [reflexivity |]. eexists. split; [reflexivity |].
      no_such_event.
    + intros _. split; [reflexivity |]. eexists. split; [reflexivity |].
      no_such_event.
Qed.

(** C2, as the code has it: once scanning has begun (nil wrapped error, a
    cursor, and no error carried by the cursor at entry) the cursor is closed
    when [Scan] returns, whichever way it returns; on the exits before that
    (a wrapped error, a cursor that already carries an error) [Scan] hands
    the cursor back as it was. *)
Theorem query_Scan_closes_cursor (x : query) row m :
  (scan_begun x = true ->
   exists r', (query_Scan x row m).1.2 = Some r' /\ rows_closed r' = true) /\
  (scan_begun x = false -> (query_Scan x row m).1.2 = query_sqlRows x).
Proof.
  split; [| intros H; by apply query_Scan_early_exit].
  unfold scan_begun, query_Scan.
  destruct (query_err x); [discriminate |].
  destruct (query_sqlRows x) as [r|]; [| discriminate].
  intros HE. apply bool_decide_eq_true in HE. rewrite HE.
  destruct (scan_columns row r _) as [[ret r1] m1]. simpl.
  exists (rows_Close r1). split; reflexivity.
Qed.

(** *** Turns of the row loop *)

Lemma call_row_eq row idx m :
  call_row row idx m
  = ((row idx (m_user m)).1,
     {| m_user := (row idx (m_user m)).2;
        m_heap := m_heap m;
        m_trace := m_trace m ++ [CallRow idx] |}).
Proof. unfold call_row. by destruct (row idx (m_user m)). Qed.

Lemma rows_Next_true_pending r r1 :
  rows_Next r = (true, r1) -> exists f, rows_pending r = f :: rows_pending r1.
Proof.
  unfold rows_Next. destruct (_ || _); [discriminate |].
  destruct (rows_pending r) as [|[vals|vals e|e] rest]; intros [= <-];
    eexists; reflexivity.
Qed.

(** A turn on a cursor without error starts by asking the callback at the
    loop's index. *)
Lemma scan_row_first_call columns row idx err r m :
  rows_Err r = None ->
  exists evs,
    m_trace (scan_row columns row idx err r m).2
    = m_trace m ++ CallErr :: CallRow idx :: evs.
Proof.
  intros HE. unfold scan_row. rewrite HE, !call_row_eq. cbn [emit m_user].
  destruct (row idx (m_user m)).1 as [l1|]; cbn [m_user m_heap m_trace].
  2: { exists []. simpl. by rewrite <- app_assoc. }
  destruct (Nat.ltb _ 1).
  { eexists. simpl. rewrite <- !app_assoc. reflexivity. }
  destruct (negb _).
  { eexists. simpl. rewrite <- !app_assoc. reflexivity. }
  unfold call_Scan. cbn [m_user m_heap m_trace].
  destruct (rows_Scan _ r _) as [[e|] h1];
    eexists; simpl; rewrite <- !app_assoc; reflexivity.
Qed.

(** C6: when the row loop stands at index [idx], [Next] brings a row, and
    the callback answers at [idx] with a non-empty sequence [ds] whose length
    is not the column count, [Scan] returns [ErrInvalidArguments] wrapped in
    a message that carries both the column count and [length ds].  That row
    is not bound and no later row is fetched: the cursor is left where that
    [Next] put it (then closed), the memory is as it was before the turn, and
    the turn's events are [Next], [Err], four callback calls and the log. *)
Theorem query_Scan_mismatch (x : query) row m columns idx err r mi r1 ds :
  scan_at x row m columns (idx, err, r, mi) ->
  rows_Next r = (true, r1) -> rows_Err r1 = None ->
  row_answers row idx 4 (m_user mi) (Some ds) ->
  ds <> [] -> length ds <> length columns ->
  let e := errColumnsOnDestinations (length columns) (length ds) in
  query_Scan x row m
  = (Some e, Some (rows_Close r1),
     {| m_user := row_calls row idx 4 (m_user mi);
        m_heap := m_heap mi;
        m_trace :=
          m_trace mi ++
          [CallNext true; CallErr;
           CallRow idx; CallRow idx; CallRow idx; CallRow idx;
           LogErr (Some e) "[database:query]error invalid args to scan";
           CallClose] |}) /\
  errors_Is e ErrInvalidArguments = true /\
  error_Error e
  = "invalid arguments for scan: [" +:+ pretty (length columns) +:+
    "] columns on [" +:+ pretty (length ds) +:+ "] destinations".
Proof.
  intros Hat HN HE Hans Hne Hlen e.
  split; [| split; reflexivity].
  rewrite (scan_at_result _ _ _ _ _ Hat). cbn [scan_rows_from].
  rewrite scan_rows_unfold, HN. unfold scan_row. rewrite HE.
  first_answers Hans.
  rewrite !call_row_eq. cbn [emit m_user m_heap m_trace].
  rewrite H0, H1, H2, H3. cbn [len].
  destruct (Nat.ltb_spec (length ds) 1) as [Hlt|_].
  { destruct ds; [done | simpl in Hlt; lia]. }
  destruct (Nat.eqb_spec (length ds) (length columns)) as [Heq|_]; [done |].
  cbn [negb]. subst e. unfold emit. cbn [m_user m_heap m_trace].
  rewrite <- !app_assoc. reflexivity.
Qed.

(** *** The end of the row loop *)

(** When [Next] answers false the loop ends and [Scan] returns its [err]
    variable, which is nil: the cursor is not asked why the rows ended. *)
Lemma query_Scan_exhausted (x : query) row m columns idx err r mi r1 :
  scan_at x row m columns (idx, err, r, mi) ->
  rows_Next r = (false, r1) ->
  query_Scan x row m
  = (None, Some (rows_Close r1),
     {| m_user := m_user mi;
        m_heap := m_heap mi;
        m_trace := m_trace mi ++ [CallNext false; CallClose] |}).
Proof.
  intros Hat HN. rewrite (scan_at_result _ _ _ _ _ Hat).
  apply scan_at_err in Hat. subst err. cbn [scan_rows_from].
  rewrite scan_rows_unfold, HN. unfold emit. cbn [m_user m_heap m_trace].
  by rewrite <- app_assoc.
Qed.

End QueryScanChecks.

(** *** Turns that bind and turns that stop *)

Lemma rows_Next_row columns lastcols vals rest :
  rows_Next
    {| rows_closed := false; rows_lasterr := None; rows_columns := columns;
       rows_lastcols := lastcols; rows_pending := FetchRow vals :: rest |}
  = (true,
     {| rows_closed := false; rows_lasterr := None; rows_columns := columns;
        rows_lastcols := Some vals; rows_pending := rest |}).
Proof. reflexivity. Qed.

Section QueryScanTurns.
Context {U : Type}.
Implicit Types (row : @RowFunc U) (m : Mem U) (r : Rows).

Lemma scan_at_start (x : query) row m columns r :
  query_err x = None -> query_sqlRows x = Some r ->
  rows_Err r = None -> rows_Columns r = (columns, None) -> columns <> [] ->
  scan_at x row m columns
    (0%Z, None, r, emit [CallColumns] (emit [CallErr] m)).
Proof.
  intros He Hr HE HC Hne. exists r. repeat split; auto. apply reaches_here.
Qed.

(** The callback answers [ds], one destination per column, and the row
    binds: the index goes up by one and [err] is nil. *)
Lemma scan_row_bound columns row idx err r m ds h' :
  rows_Err r = None ->
  row_answers row idx 4 (m_user m) (Some ds) ->
  ds <> [] -> length ds = length columns ->
  rows_Scan ds r (m_heap m) = (None, h') ->
  scan_row columns row idx err r m
  = (Continue (int_incr idx) None,
     {| m_user := row_calls row idx 4 (m_user m);
        m_heap := h';
        m_trace :=
          m_trace m ++
          [CallErr; CallRow idx; CallRow idx; CallRow idx; CallRow idx;
           CallScan (dst_loc <$> ds)] |}).
Proof.
  intros HE Hans Hne Hlen HS. unfold scan_row. rewrite HE.
  first_answers Hans.
  rewrite !call_row_eq. cbn [emit m_user m_heap m_trace].
  rewrite H0, H1, H2, H3. cbn [len elems].
  destruct (Nat.ltb_spec (length ds) 1) as [Hlt|_].
  { destruct ds; [done | simpl in Hlt; lia]. }
  rewrite Hlen, Nat.eqb_refl. cbn [negb].
  unfold call_Scan. cbn [m_user m_heap m_trace]. rewrite HS.
  rewrite <- !app_assoc. reflexivity.
Qed.

(** The callback answers nil: out of the loop, the row in hand unread. *)
Lemma scan_row_stop columns row idx err r m :
  rows_Err r = None -> (row idx (m_user m)).1 = None ->
  scan_row columns row idx err r m
  = (Break,
     {| m_user := (row idx (m_user m)).2;
        m_heap := m_heap m;
        m_trace := m_trace m ++ [CallErr; CallRow idx] |}).
Proof.
  intros HE H0. unfold scan_row. rewrite HE, call_row_eq.
  cbn [emit m_user m_heap m_trace]. rewrite H0.
  by rewrite <- app_assoc.
Qed.

(** C8: a query with two columns and three rows; the callback answers with
    the two destinations [p0; q0] at index 0, [p1; q1] at index 1 and nil at
    index 2, and the values of rows 0 and 1 convert.  Then [Scan] returns
    nil; the destinations hold the converted values of rows 0 and 1; and the
    third row, which the third [Next] fetched, is never read: there are two
    [rows.Scan] calls, and the cursor is left closed with that row in hand. *)
Theorem query_Scan_stop_at_third_row row m c1 c2
    a0 b0 a1 b1 a2 b2 p0 q0 p1 q1 a0' b0' a1' b1' :
  (forall u, (row 0%Z u).1 = Some [p0; q0]) ->
  (forall u, (row 1%Z u).1 = Some [p1; q1]) ->
  (forall u, (row 2%Z u).1 = None) ->
  dst_conv p0 a0 = Some a0' -> dst_conv q0 b0 = Some b0' ->
  dst_conv p1 a1 = Some a1' -> dst_conv q1 b1 = Some b1' ->
  query_Scan
    (Query (Some (open_cursor [c1; c2] [[a0; b0]; [a1; b1]; [a2; b2]])) None)
    row m
  = (None,
     Some {| rows_closed := true;
             rows_lasterr := None;
             rows_columns := [c1; c2];
             rows_lastcols := Some [a2; b2];
             rows_pending := [] |},
     {| m_user :=
          row_calls row 2 1
            (row_calls row 1 4 (row_calls row 0 4 (m_user m)));
        m_heap :=
          <[dst_loc q1 := b1']>
            (<[dst_loc p1 := a1']>
               (<[dst_loc q0 := b0']>
                  (<[dst_loc p0 := a0']> (m_heap m))));
        m_trace :=
          m_trace m ++
          [CallErr; CallColumns;
           CallNext true; CallErr;
           CallRow 0; CallRow 0; CallRow 0; CallRow 0;
           CallScan [dst_loc p0; dst_loc q0];
           CallNext true; CallErr;
           CallRow 1; CallRow 1; CallRow 1; CallRow 1;
           CallScan [dst_loc p1; dst_loc q1];
           CallNext true; CallErr; CallRow 2;
           CallClose] |}).
Proof.
  intros R0 R1 R2 P0 Q0 P1 Q1.
  unfold query_Scan, scan_columns, Query, open_cursor.
  cbn [query_err query_sqlRows rows_Err rows_lasterr rows_Columns rows_closed
       rows_columns length Nat.ltb Nat.leb fmap list_fmap].
  rewrite scan_rows_unfold, rows_Next_row.
  erewrite scan_row_bound;
    [| reflexivity | intros k _; apply R0 | done | reflexivity |].
  2: { unfold rows_Scan. cbn. rewrite P0, Q0. reflexivity. }
  rewrite scan_rows_unfold, rows_Next_row.
  erewrite scan_row_bound;
    [| reflexivity | intros k _; apply R1 | done | reflexivity |].
  2: { unfold rows_Scan. cbn. rewrite P1, Q1. reflexivity. }
  rewrite scan_rows_unfold, rows_Next_row.
  rewrite scan_row_stop; [| reflexivity | apply R2].
  unfold emit. cbn [m_user m_heap m_trace]. rewrite <- !app_assoc.
  reflexivity.
Qed.

End QueryScanTurns.

(** ** Runs on the sample cursors *)

Lemma query_Scan_no_columns_witness :
  query_Scan (Query (Some (open_cursor [] [[VInt 1]])) None)
    (pure_row one_cell) (mem0 ∅)
  = (Some ErrNoColumnReturned,
     Some (rows_Close (open_cursor [] [[VInt 1]])),
     {| m_user := tt;
        m_heap := ∅;
        m_trace :=
          [CallErr; CallColumns;
           LogErr (Some ErrNoColumnReturned)
             "[database:query]count columns length";
           CallClose] |}).
Proof.
  apply (query_Scan_no_columns (pure_row one_cell)
           (open_cursor [] [[VInt 1]]) (mem0 ∅)); reflexivity.
Defined.

Lemma query_Scan_closes_cursor_witness :
  exists r',
    (query_Scan (Query (Some (open_cursor ["id"] [[VInt 1]; [VInt 2]])) None)
       (pure_row one_cell) (mem0 ∅)).1.2 = Some r' /\
    rows_closed r' = true.
Proof.
  apply (proj1 (query_Scan_closes_cursor
                  (Query (Some (open_cursor ["id"] [[VInt 1]; [VInt 2]])) None)
                  (pure_row one_cell) (mem0 ∅))).
  reflexivity.
Defined.

(** C2 does not hold on every exit: a cursor that already reports an error
    when [Scan] is called is handed back as it was, still open; [Scan]
    returned before its [defer]. *)
Lemma query_Scan_leaves_cancelled_cursor_open :
  query_Scan (Query (Some cancelled_cursor) None) (pure_row one_cell)
    (mem0 ∅)
  = (Some (foreignError "context canceled"),
     Some cancelled_cursor,
     {| m_user := tt; m_heap := ∅; m_trace := [CallErr] |}) /\
  rows_closed cancelled_cursor = false.
Proof. split; reflexivity. Qed.

(** The same on the first exit: a wrapper holding both an error and an open
    cursor. *)
Lemma query_Scan_leaves_cursor_open_on_wrapped_error :
  (query_Scan
     (Query (Some (open_cursor ["id"] [[VInt 1]]))
        (Some (foreignError "syntax error")))
     (pure_row one_cell) (mem0 ∅)).1
  = (Some (foreignError "syntax error"),
     Some (open_cursor ["id"] [[VInt 1]])) /\
  rows_closed (open_cursor ["id"] [[VInt 1]]) = false.
Proof. split; reflexivity. Qed.

(** C3 on the code: the driver fails on the second fetch, [Next] answers
    false and the cursor keeps that failure for [Err]; [Scan] binds the first
    row and returns nil. *)
Theorem query_Scan_swallows_fetch_failure :
  query_Scan (Query (Some broken_cursor) None) (pure_row one_cell) (mem0 ∅)
  = (None,
     Some {| rows_closed := true;
             rows_lasterr := Some (foreignError "driver: bad connection");
             rows_columns := ["id"];
             rows_lastcols := Some [VInt 1];
             rows_pending := [] |},
     {| m_user := tt;
        m_heap := {[ 0 := VInt 1 ]};
        m_trace :=
          [CallErr; CallColumns;
           CallNext true; CallErr;
           CallRow 0; CallRow 0; CallRow 0; CallRow 0; CallScan [0];
           CallNext false; CallClose] |}) /\
  rows_Err
    {| rows_closed := true;
       rows_lasterr := Some (foreignError "driver: bad connection");
       rows_columns := ["id"];
       rows_lastcols := Some [VInt 1];
       rows_pending := [] |}
  = Some (foreignError "driver: bad connection").
Proof. split; reflexivity. Qed.

Lemma query_Scan_mismatch_witness :
  (query_Scan
     (Query (Some (open_cursor ["a"; "b"; "c"]
                     [[VInt 1; VInt 2; VInt 3]; [VInt 4; VInt 5; VInt 6]]))
        None)
     (pure_row one_pair) (mem0 ∅)).1
  = (Some (errColumnsOnDestinations 3 2),
     Some {| rows_closed := true;
             rows_lasterr := None;
             rows_columns := ["a"; "b"; "c"];
             rows_lastcols := Some [VInt 1; VInt 2; VInt 3];
             rows_pending := [FetchRow [VInt 4; VInt 5; VInt 6]] |}) /\
  error_Error (errColumnsOnDestinations 3 2)
  = "invalid arguments for scan: [3] columns on [2] destinations".
Proof.
  edestruct
    (query_Scan_mismatch
       (Query (Some (open_cursor ["a"; "b"; "c"]
                       [[VInt 1; VInt 2; VInt 3]; [VInt 4; VInt 5; VInt 6]]))
          None)
       (pure_row one_pair) (mem0 ∅) ["a"; "b"; "c"] 0%Z None
       (open_cursor ["a"; "b"; "c"]
          [[VInt 1; VInt 2; VInt 3]; [VInt 4; VInt 5; VInt 6]])
       (emit [CallColumns] (emit [CallErr] (mem0 ∅)))
       {| rows_closed := false;
          rows_lasterr := None;
          rows_columns := ["a"; "b"; "c"];
          rows_lastcols := Some [VInt 1; VInt 2; VInt 3];
          rows_pending := [FetchRow [VInt 4; VInt 5; VInt 6]] |}
       [any_dest 0; any_dest 1]) as (H1 & H2 & H3).
  - apply scan_at_start; try reflexivity. discriminate.
  - reflexivity.
  - reflexivity.
  - intros k _. reflexivity.
  - discriminate.
  - simpl. lia.
  - rewrite H1. split; reflexivity.
Defined.

Lemma query_Scan_stop_at_third_row_witness :
  (query_Scan
     (Query
        (Some (open_cursor ["id"; "name"]
                 [[VInt 1; VText "a"]; [VInt 2; VText "b"];
                  [VInt 3; VText "c"]]))
        None)
     (pure_row two_then_stop) (mem0 ∅)).1.1 = None /\
  m_heap
    (query_Scan
       (Query
          (Some (open_cursor ["id"; "name"]
                   [[VInt 1; VText "a"]; [VInt 2; VText "b"];
                    [VInt 3; VText "c"]]))
          None)
       (pure_row two_then_stop) (mem0 ∅)).2
  = {[ 10 := VInt 1; 11 := VText "a"; 20 := VInt 2; 21 := VText "b" ]}.
Proof.
  rewrite
    (query_Scan_stop_at_third_row (pure_row two_then_stop) (mem0 ∅)
       "id" "name" (VInt 1) (VText "a") (VInt 2) (VText "b")
       (VInt 3) (VText "c")
       (any_dest 10) (any_dest 11) (any_dest 20) (any_dest 21)
       (VInt 1) (VText "a") (VInt 2) (VText "b"))
    by (intros; reflexivity).
  split; [reflexivity | vm_compute; reflexivity].
Defined.

(** * Further properties *)

(** ** The execution result wrapper, all paths *)

(** Walk every path of a function written with nested matches. *)
Ltac all_paths := repeat case_match; simplify_eq/=.

(** Whenever [exec.Scan] returns an error it has written nothing: the memory
    is exactly as before, both outputs included. *)
Theorem exec_Scan_failure_writes_nothing (x : exec) (ra li : option nat)
    (h : gmap nat Z) :
  (exec_Scan x ra li h).1.1 <> None -> (exec_Scan x ra li h).1.2 = h.
Proof. unfold exec_Scan. intros H. all_paths; done. Qed.

Lemma exec_Scan_failure_writes_nothing_witness :
  (exec_Scan
     (Exec (Some {| RowsAffected := (3%Z, Some (foreignError "unsupported"));
                    LastInsertId := (9%Z, None) |}) None)
     (Some 1) (Some 2) {[ 1 := 42%Z; 2 := 43%Z ]}).1.2
  = {[ 1 := 42%Z; 2 := 43%Z ]}.
Proof.
  apply (exec_Scan_failure_writes_nothing
           (Exec (Some {| RowsAffected := (3%Z, Some (foreignError "unsupported"));
                          LastInsertId := (9%Z, None) |}) None)
           (Some 1) (Some 2) {[ 1 := 42%Z; 2 := 43%Z ]}).
  discriminate.
Defined.

(** [exec.Scan] returns nil exactly when the wrapped error is nil, there is a
    result handle and, if the affected-row count is asked for, the handle
    reports it without error as at least 1.  The last-insert id plays no
    part. *)
Theorem exec_Scan_nil_iff (x : exec) (ra li : option nat) (h : gmap nat Z) :
  (exec_Scan x ra li h).1.1 = None <->
  exec_err x = None /\
  exists res,
    exec_sqlResult x = Some res /\
    (ra <> None ->
     (RowsAffected res).2 = None /\ (1 <= (RowsAffected res).1)%Z).
Proof.
  unfold exec_Scan. split.
  - intros H.
    destruct (exec_err x); [discriminate |].
    destruct (exec_sqlResult x) as [res|]; [| discriminate].
    split; [done |]. exists res. split; [done |]. intros Hra.
    destruct ra as [p|]; [| done].
    destruct (RowsAffected res) as [n [e|]]; [discriminate |]. simpl in *.
    destruct (Z.ltb_spec n 1); [discriminate |]. split; [done | lia].
  - intros (He & res & Hr & Hra). rewrite He, Hr.
    destruct ra as [p|].
    + destruct Hra as [H1 H2]; [done |].
      destruct (RowsAffected res) as [n e]. simpl in *. subst e.
      destruct (Z.ltb_spec n 1); [lia |].
      destruct li as [q|]; [| done].
      by destruct (LastInsertId res) as [k [e|]].
    + destruct li as [q|]; [| done].
      by destruct (LastInsertId res) as [k [e|]].
Qed.

(** [exec.Scan] writes through its two pointers only: every other cell of
    the memory is as before, on every path. *)
Theorem exec_Scan_frame (x : exec) (ra li : option nat) (h : gmap nat Z)
    (l : nat) :
  ra <> Some l -> li <> Some l ->
  (exec_Scan x ra li h).1.2 !! l = h !! l.
Proof.
  unfold exec_Scan. intros Hra Hli.
  all_paths; rewrite ?lookup_insert_ne by congruence; done.
Qed.

Lemma exec_Scan_frame_witness :
  (exec_Scan
     (Exec (Some {| RowsAffected := (3%Z, None);
                    LastInsertId := (9%Z, None) |}) None)
     (Some 1) (Some 2) {[ 5 := 42%Z ]}).1.2 !! 5
  = ({[ 5 := 42%Z ]} : gmap nat Z) !! 5.
Proof.
  apply (exec_Scan_frame
           (Exec (Some {| RowsAffected := (3%Z, None);
                          LastInsertId := (9%Z, None) |}) None)
           (Some 1) (Some 2) {[ 5 := 42%Z ]} 5); discriminate.
Defined.

(** The last-insert id is best effort: when the handle cannot report it,
    asking for it changes neither the returned error nor the memory. *)
Theorem exec_Scan_last_insert_id_best_effort (x : exec) (ra : option nat)
    (q : nat) (h : gmap nat Z) :
  (forall res, exec_sqlResult x = Some res -> (LastInsertId res).2 <> None) ->
  (exec_Scan x ra (Some q) h).1 = (exec_Scan x ra None h).1.
Proof.
  unfold exec_Scan. intros Hli.
  destruct (exec_err x); [done |].
  destruct (exec_sqlResult x) as [res|]; [| done].
  specialize (Hli res eq_refl).
  destruct (LastInsertId res) as [k [e|]]; [| done]. simpl.
  destruct ra as [p|]; [| done].
  destruct (RowsAffected res) as [n [e'|]]; [done |].
  by destruct (n <? 1)%Z.
Qed.

(** Five rows affected, no last-insert id on offer: nil, the count is 5 and
    the cell for the id keeps its old content. *)
Lemma exec_Scan_last_insert_id_best_effort_witness :
  (exec_Scan
     (Exec (Some {| RowsAffected := (5%Z, None);
                    LastInsertId := (0%Z, Some (foreignError "unsupported")) |})
        None)
     (Some 1) (Some 2) {[ 1 := 0%Z; 2 := 77%Z ]}).1
  = (None, {[ 1 := 5%Z; 2 := 77%Z ]}).
Proof.
  rewrite (exec_Scan_last_insert_id_best_effort
             (Exec (Some {| RowsAffected := (5%Z, None);
                            LastInsertId :=
                              (0%Z, Some (foreignError "unsupported")) |})
                None)
             (Some 1) 2 {[ 1 := 0%Z; 2 := 77%Z ]}).
  - vm_compute. reflexivity.
  - intros res [= <-]. discriminate.
Defined.

(** What a successful [exec.Scan] leaves behind its pointers: the reported
    id behind [lastInsertID]; the reported count, at least 1, behind
    [rowsAffected], unless both pointers are the same cell and the id was
    reported, in which case the id has overwritten the count. *)
Theorem exec_Scan_success_outputs (res : Result) (ra li : option nat)
    (h : gmap nat Z) :
  (exec_Scan (Exec (Some res) None) ra li h).1.1 = None ->
  (forall q, li = Some q -> (LastInsertId res).2 = None ->
     (exec_Scan (Exec (Some res) None) ra li h).1.2 !! q
     = Some (LastInsertId res).1) /\
  (forall p, ra = Some p ->
     li <> Some p \/ (LastInsertId res).2 <> None ->
     (exec_Scan (Exec (Some res) None) ra li h).1.2 !! p
     = Some (RowsAffected res).1 /\ (1 <= (RowsAffected res).1)%Z).
Proof.
  unfold exec_Scan, Exec. simpl. intros H. split.
  - intros q -> Hq. all_paths; by rewrite lookup_insert_eq.
  - intros p -> Hp. all_paths; try done;
      (split; [| lia]);
      rewrite ?lookup_insert_eq; try done.
    + destruct Hp as [Hp|Hp]; [| done].
      rewrite lookup_insert_ne by congruence. by rewrite lookup_insert_eq.
Qed.

Lemma exec_Scan_success_outputs_witness :
  (exec_Scan
     (Exec (Some {| RowsAffected := (3%Z, None);
                    LastInsertId := (9%Z, None) |}) None)
     (Some 1) (Some 1) ∅).1.2 !! 1
  = Some 9%Z.
Proof.
  apply (exec_Scan_success_outputs
           {| RowsAffected := (3%Z, None); LastInsertId := (9%Z, None) |}
           (Some 1) (Some 1) ∅); reflexivity.
Defined.

(** ** The transaction finaliser, all cases *)

(** From an event that is in no short, explicit list, anything follows. *)
Ltac absent_event :=
  let H := fresh in intros H; exfalso; revert H; no_such_event.

(** The handle a first [EndTx] leaves is finished, or its context has
    ended: either way a commit on it is refused. *)
Lemma EndTx_leaves_unusable (t : Tx) (err : option error) (t' : Tx) :
  (EndTx (Some t) err).1.2 = Some t' ->
  tx_done t' = true \/ tx_ctxErr t' <> None.
Proof.
  unfold EndTx. destruct err as [e|].
  - pose proof (tx_Rollback_done t) as Hd.
    destruct (tx_Rollback t) as [errR t1]. simpl in *.
    intros [= <-]. by left.
  - pose proof (tx_Commit_done t) as Hd.
    destruct (tx_Commit t) as [[eC|] t1]; simpl in *; intros [= <-];
      (destruct Hd as [Hd|[Hc ->]]; [by left | by right]).
Qed.

(** [EndTx] returns nil only for a handle, a nil error and a commit that
    succeeded: a failure that came in is never turned into success, and a
    missing handle is never success. *)
Theorem EndTx_nil_iff (tx : option Tx) (err : option error) :
  (EndTx tx err).1.1 = None <->
  exists t, tx = Some t /\ err = None /\ (tx_Commit t).1 = None.
Proof.
  unfold EndTx. split.
  - intros H. destruct tx as [t|]; [| discriminate].
    destruct err as [e|].
    + destruct (tx_Rollback t). discriminate.
    + exists t. destruct (tx_Commit t) as [[eC|] t']; [discriminate | done].
  - intros (t & -> & -> & HC).
    destruct (tx_Commit t) as [errC t']. simpl in HC. by subst errC.
Qed.

(** On a handle, [EndTx] makes exactly one call that ends a transaction: a
    rollback exactly when the error is non-nil, a commit exactly when it is
    nil, never both. *)
Theorem EndTx_one_terminal_call (t : Tx) (err : option error) :
  count_events is_terminal_call (EndTx (Some t) err).2 = 1 /\
  (CallRollback ∈ (EndTx (Some t) err).2 <-> err <> None) /\
  (CallCommit ∈ (EndTx (Some t) err).2 <-> err = None).
Proof.
  unfold EndTx. destruct err as [e|].
  - destruct (tx_Rollback t) as [errR t']. simpl.
    split; [reflexivity |]. split.
    + split; [done | intros _; apply list_elem_of_here].
    + split; [absent_event | done].
  - destruct (tx_Commit t) as [[eC|] t']; simpl;
      (split; [reflexivity |]; split;
       [ split; [absent_event | done]
       | split; [done | intros _; apply list_elem_of_here] ]).
Qed.

(** Finalising again never reports success: on the handle a first [EndTx]
    left, a second [EndTx] returns an error, its own error argument if that
    is non-nil, and otherwise [sql.ErrTxDone] or, when the first commit was
    refused because the transaction's context had ended, that context's
    error again. *)
Theorem EndTx_twice (t : Tx) (err err2 : option error) (t' : Tx) :
  (EndTx (Some t) err).1.2 = Some t' ->
  exists e,
    (EndTx (Some t') err2).1.1 = Some e /\
    (err2 = Some e \/
     err2 = None /\ (e = sql_ErrTxDone \/ tx_ctxErr t' = Some e)).
Proof.
  intros H. apply EndTx_leaves_unusable in H.
  unfold EndTx. destruct err2 as [e2|].
  - exists e2. destruct (tx_Rollback t'). simpl. auto.
  - unfold tx_Commit.
    destruct (tx_ctxErr t') as [c|] eqn:Hc.
    + destruct (tx_done t'); eexists; simpl; (split; [reflexivity |]);
        right; auto.
    + destruct H as [Hd|Hn]; [| done]. rewrite Hd.
      eexists. simpl. split; [reflexivity |]. right. auto.
Qed.

(** After a commit that went through, a second [EndTx] with a nil error
    answers [sql.ErrTxDone]; after one refused for an ended context, the
    context's error again. *)
Lemma EndTx_twice_witness :
  exists e,
    (EndTx
       (Some {| tx_done := false;
                tx_ctxErr := Some (foreignError "context canceled");
                tx_onRollback := None; tx_onCommit := None |})
       None).1.1 = Some e.
Proof.
  destruct (EndTx_twice
              {| tx_done := false;
                 tx_ctxErr := Some (foreignError "context canceled");
                 tx_onRollback := None; tx_onCommit := None |}
              None None
              {| tx_done := false;
                 tx_ctxErr := Some (foreignError "context canceled");
                 tx_onRollback := None; tx_onCommit := None |}
              eq_refl) as (e & He & _).
  exists e. exact He.
Defined.

Lemma EndTx_twice_after_commit :
  (EndTx
     (EndTx
        (Some {| tx_done := false; tx_ctxErr := None;
                 tx_onRollback := None; tx_onCommit := None |})
        None).1.2
     None).1.1
  = Some sql_ErrTxDone.
Proof. reflexivity. Qed.

(** ** The row-set wrapper, the other exits *)

Lemma rows_Next_end columns lastcols :
  rows_Next
    {| rows_closed := false; rows_lasterr := None; rows_columns := columns;
       rows_lastcols := lastcols; rows_pending := [] |}
  = (false,
     {| rows_closed := true; rows_lasterr := None; rows_columns := columns;
        rows_lastcols := lastcols; rows_pending := [] |}).
Proof. reflexivity. Qed.

Section QueryScanExits.
Context {U : Type}.
Implicit Types (row : @RowFunc U) (m : Mem U) (r : Rows).

(** [Scan] never reports success on a cursor it has not closed. *)
Theorem query_Scan_nil_closed (x : query) row m :
  (query_Scan x row m).1.1 = None ->
  exists r', (query_Scan x row m).1.2 = Some r' /\ rows_closed r' = true.
Proof.
  unfold query_Scan.
  destruct (query_err x); [discriminate |].
  destruct (query_sqlRows x) as [r|]; [| discriminate].
  destruct (rows_Err r); [discriminate |].
  destruct (scan_columns row r _) as [[ret r1] m1]. simpl. intros _.
  exists (rows_Close r1). split; reflexivity.
Qed.

(** When scanning does not begin (a wrapped error, no cursor, or a cursor
    that already reports an error), [Scan] returns an error, the wrapped one
    first, and neither asks the callback nor touches the memory. *)
Theorem query_Scan_not_begun (x : query) row m :
  scan_begun x = false ->
  (query_Scan x row m).1.1
  = Some (default
            (default ErrDataNotFound (query_sqlRows x ≫= rows_Err))
            (query_err x)) /\
  m_user (query_Scan x row m).2 = m_user m /\
  m_heap (query_Scan x row m).2 = m_heap m.
Proof.
  unfold scan_begun, query_Scan.
  destruct (query_err x) as [e|]; [done |].
  destruct (query_sqlRows x) as [r|]; [| done]. simpl.
  intros HE. apply bool_decide_eq_false in HE.
  destruct (rows_Err r) as [e|]; done.
Qed.

(** A result set without rows is success: [Scan] returns nil after one
    [Next], never having asked the callback. *)
Theorem query_Scan_empty_result (columns : list string) row m :
  columns <> [] ->
  query_Scan (Query (Some (open_cursor columns [])) None) row m
  = (None, Some (rows_Close (open_cursor columns [])),
     {| m_user := m_user m;
        m_heap := m_heap m;
        m_trace :=
          m_trace m ++ [CallErr; CallColumns; CallNext false; CallClose] |}).
Proof.
  intros Hne. unfold query_Scan, scan_columns, Query, open_cursor.
  cbn [query_err query_sqlRows rows_Err rows_lasterr rows_Columns rows_closed
       rows_columns fmap list_fmap].
  destruct columns as [|c columns]; [done |]. cbn [length Nat.ltb Nat.leb].
  rewrite scan_rows_unfold, rows_Next_end. unfold emit, rows_Close.
  cbn [m_user m_heap m_trace rows_closed rows_lasterr rows_columns
       rows_lastcols rows_pending].
  by rewrite <- !app_assoc.
Qed.

(** On a closed cursor [Scan] returns an error and asks nothing of the
    callback. *)
Lemma query_Scan_closed_cursor r row m :
  rows_closed r = true ->
  (query_Scan (Query (Some r) None) row m).1.1
  = Some (default sql_errRowsClosed (rows_Err r)) /\
  m_user (query_Scan (Query (Some r) None) row m).2 = m_user m /\
  m_heap (query_Scan (Query (Some r) None) row m).2 = m_heap m.
Proof.
  intros Hc. unfold query_Scan, scan_columns, rows_Columns, Query.
  cbn [query_err query_sqlRows].
  destruct (rows_Err r) as [e|] eqn:HE; [done |].
  rewrite Hc. unfold rows_Err in HE. rewrite HE. done.
Qed.

Lemma query_Scan_begun_closed (x : query) row m r' :
  scan_begun x = true -> (query_Scan x row m).1.2 = Some r' ->
  rows_closed r' = true.
Proof.
  unfold scan_begun, query_Scan.
  destruct (query_err x); [discriminate |].
  destruct (query_sqlRows x) as [r|]; [| discriminate].
  intros HE. apply bool_decide_eq_true in HE. rewrite HE.
  destruct (scan_columns row r _) as [[ret r1] m1]. simpl.
  by intros [= <-].
Qed.

(** A wrapper is good for one scan: on the cursor a first [Scan] that had
    begun leaves behind, a second [Scan] returns an error (the cursor's own,
    or that the rows are closed), with any callback, and neither asks the
    callback nor touches the memory. *)
Theorem query_Scan_twice (x : query) row m r' row2 (m2 : Mem U) :
  scan_begun x = true -> (query_Scan x row m).1.2 = Some r' ->
  (query_Scan (Query (Some r') None) row2 m2).1.1
  = Some (default sql_errRowsClosed (rows_Err r')) /\
  m_user (query_Scan (Query (Some r') None) row2 m2).2 = m_user m2 /\
  m_heap (query_Scan (Query (Some r') None) row2 m2).2 = m_heap m2.
Proof.
  intros Hb Hr. apply query_Scan_closed_cursor.
  by eapply query_Scan_begun_closed.
Qed.

(** *** Exits from inside the row loop *)

(** The stop sentinel at any row: [Scan] returns nil, the row in hand is not
    read and no later row is fetched. *)
Theorem query_Scan_stop (x : query) row m columns idx err r mi r1 :
  scan_at x row m columns (idx, err, r, mi) ->
  rows_Next r = (true, r1) -> rows_Err r1 = None ->
  (row idx (m_user mi)).1 = None ->
  query_Scan x row m
  = (None, Some (rows_Close r1),
     {| m_user := (row idx (m_user mi)).2;
        m_heap := m_heap mi;
        m_trace :=
          m_trace mi ++ [CallNext true; CallErr; CallRow idx; CallClose] |}).
Proof.
  intros Hat HN HE Hnil. rewrite (scan_at_result _ _ _ _ _ Hat).
  apply scan_at_err in Hat. subst err. cbn [scan_rows_from].
  rewrite scan_rows_unfold, HN.
  rewrite scan_row_stop by done.
  unfold emit. cbn [m_user m_heap m_trace].
  by rewrite <- !app_assoc.
Qed.

(** A row that arrives with the cursor in error: [Scan] returns the cursor's
    error without asking the callback, and fetches no more. *)
Theorem query_Scan_cursor_error (x : query) row m columns idx err r mi r1 e :
  scan_at x row m columns (idx, err, r, mi) ->
  rows_Next r = (true, r1) -> rows_Err r1 = Some e ->
  query_Scan x row m
  = (Some e, Some (rows_Close r1),
     {| m_user := m_user mi;
        m_heap := m_heap mi;
        m_trace :=
          m_trace mi ++
          [CallNext true; CallErr; CallErr;
           LogErr (Some e) "[database:query]error to scan sql rows";
           CallErr; CallClose] |}).
Proof.
  intros Hat HN HE. rewrite (scan_at_result _ _ _ _ _ Hat).
  cbn [scan_rows_from]. rewrite scan_rows_unfold, HN.
  unfold scan_row. rewrite HE. unfold emit. cbn [m_user m_heap m_trace].
  by rewrite <- !app_assoc.
Qed.

(** A row that does not bind: what [rows.Scan] answered is returned as it
    is, the index is not advanced and no later row is fetched; what
    [rows.Scan] wrote before it failed stays written. *)
Theorem query_Scan_bind_failure (x : query) row m columns idx err r mi r1
    ds e h' :
  scan_at x row m columns (idx, err, r, mi) ->
  rows_Next r = (true, r1) -> rows_Err r1 = None ->
  row_answers row idx 4 (m_user mi) (Some ds) ->
  ds <> [] -> length ds = length columns ->
  rows_Scan ds r1 (m_heap mi) = (Some e, h') ->
  query_Scan x row m
  = (Some e, Some (rows_Close r1),
     {| m_user := row_calls row idx 4 (m_user mi);
        m_heap := h';
        m_trace :=
          m_trace mi ++
          [CallNext true; CallErr;
           CallRow idx; CallRow idx; CallRow idx; CallRow idx;
           CallScan (dst_loc <$> ds);
           LogErr (Some e) "[database:query] failed to scan row";
           CallClose] |}).
Proof.
  intros Hat HN HE Hans Hne Hlen HS.
  rewrite (scan_at_result _ _ _ _ _ Hat). cbn [scan_rows_from].
  rewrite scan_rows_unfold, HN. unfold scan_row. rewrite HE.
  first_answers Hans.
  rewrite !call_row_eq. cbn [emit m_user m_heap m_trace].
  rewrite H0, H1, H2, H3. cbn [len elems].
  destruct (Nat.ltb_spec (length ds) 1) as [Hlt|_].
  { destruct ds; [done | simpl in Hlt; lia]. }
  rewrite Hlen, Nat.eqb_refl. cbn [negb].
  unfold call_Scan. cbn [m_user m_heap m_trace]. rewrite HS.
  unfold emit. cbn [m_user m_heap m_trace].
  by rewrite <- !app_assoc.
Qed.

End QueryScanExits.

(** ** The row index *)

Lemma count_events_app p evs1 evs2 :
  count_events p (evs1 ++ evs2) = count_events p evs1 + count_events p evs2.
Proof. unfold count_events. by rewrite filter_app, length_app. Qed.

(** Below the largest [int], counting up from 0 is counting. *)
Lemma iter_int_incr (n : nat) :
  (Z.of_nat n <= 9223372036854775807)%Z ->
  Nat.iter n int_incr 0%Z = Z.of_nat n.
Proof.
  induction n as [|n IH]; [reflexivity |]. intros Hn.
  cbn [Nat.iter nat_rect]. change (nat_rect _ _ _ n) with (Nat.iter n int_incr 0%Z).
  rewrite IH by lia. unfold int_incr.
  destruct (Z.eqb_spec (Z.of_nat n) 9223372036854775807); lia.
Qed.

(** ** A stateless callback that skips *)

Lemma pure_row_fst (f : Z -> Array) i u : (pure_row f i u).1 = f i.
Proof. reflexivity. Qed.

Lemma pure_row_snd (f : Z -> Array) i u : (pure_row f i u).2 = u.
Proof. reflexivity. Qed.

(** One skip by a callback without state is a skip of every row that
    follows: the index does not move, so the callback is asked the same
    question and gives the same answer. *)
Lemma scan_rows_skip_forever columns (f : Z -> Array) idx :
  f idx = Some [] ->
  forall n err r (m : Mem unit),
    length (rows_pending r) = n ->
    exists evs,
      m_trace (scan_rows columns (pure_row f) idx err r m).2
      = m_trace m ++ evs /\
      count_events is_CallScan evs = 0 /\
      (forall i, CallRow i ∈ evs -> i = idx) /\
      m_heap (scan_rows columns (pure_row f) idx err r m).2 = m_heap m.
Proof.
  intros Hf. induction n as [|n IH]; intros err r m Hn;
    rewrite scan_rows_unfold;
    destruct (rows_Next r) as [[|] r1] eqn:HN.
  - apply rows_Next_true in HN. lia.
  - exists [CallNext false]. split; [| split; [| split]];
      [reflexivity | reflexivity | | reflexivity].
    intros i Hi. exfalso. revert Hi. no_such_event.
  - apply rows_Next_true in HN as Hlen.
    unfold scan_row. destruct (rows_Err r1) as [e|] eqn:HE.
    + exists [CallNext true; CallErr; CallErr;
              LogErr (Some e) "[database:query]error to scan sql rows";
              CallErr].
      cbn [emit m_user m_heap m_trace snd].
      split; [| split; [| split]];
        [by rewrite <- app_assoc | reflexivity | | reflexivity].
      intros i Hi. exfalso. revert Hi. no_such_event.
    + rewrite !call_row_eq. cbn [emit m_user m_heap m_trace].
      rewrite !pure_row_fst, !pure_row_snd, Hf.
      cbn [len length Nat.ltb Nat.leb m_user m_heap m_trace].
      match goal with
      | |- context [scan_rows _ _ _ _ r1 ?m'] =>
        destruct (IH err r1 m') as (evs & Ht & Hc & Hi & Hh); [lia |]
      end.
      exists ([CallNext true; CallErr; CallRow idx; CallRow idx] ++ evs).
      cbn [m_trace m_heap] in Ht, Hh. split; [| split; [| split]].
      * rewrite Ht, <- !app_assoc. reflexivity.
      * rewrite count_events_app, Hc. reflexivity.
      * intros i Hin. apply elem_of_app in Hin as [Hin|Hin]; [| by apply Hi].
        apply list_elem_of_In in Hin. simpl in Hin.
        destruct Hin as [Hin|[Hin|[Hin|[Hin|[]]]]]; congruence.
      * exact Hh.
  - exists [CallNext false]. split; [| split; [| split]];
      [reflexivity | reflexivity | | reflexivity].
    intros i Hi. exfalso. revert Hi. no_such_event.
Qed.

(** Once a callback without state answers with the skip sentinel at a row,
    [Scan] binds no further row: until it returns, every callback call is at
    that same index, there is no [rows.Scan], and the memory stays as it was
    at that row. *)
Theorem query_Scan_skip_forever (x : query) (f : Z -> Array) (m : Mem unit)
    columns idx err r mi :
  scan_at x (pure_row f) m columns (idx, err, r, mi) ->
  f idx = Some [] ->
  exists evs,
    m_trace (query_Scan x (pure_row f) m).2 = m_trace mi ++ evs /\
    count_events is_CallScan evs = 0 /\
    (forall i, CallRow i ∈ evs -> i = idx) /\
    m_heap (query_Scan x (pure_row f) m).2 = m_heap mi.
Proof.
  intros Hat Hf. rewrite (scan_at_result _ _ _ _ _ Hat). cbn [scan_rows_from].
  destruct (scan_rows_skip_forever columns f idx Hf _ err r mi eq_refl)
    as (evs & Ht & Hc & Hi & Hh).
  destruct (scan_rows columns (pure_row f) idx err r mi) as [[ret r1] m1].
  cbn [snd emit m_trace m_heap] in *.
  exists (evs ++ [CallClose]). split; [| split; [| split]].
  - by rewrite Ht, <- app_assoc.
  - rewrite count_events_app, Hc. reflexivity.
  - intros i Hin. apply elem_of_app in Hin as [Hin|Hin]; [by apply Hi |].
    exfalso. revert Hin. no_such_event.
  - exact Hh.
Qed.

(** ** What [Scan] may write *)

Lemma convertAssignRows_frame (dest : list Dest) :
  forall i vals (h : gmap nat value) l,
    l ∉ (dst_loc <$> dest) ->
    (convertAssignRows i dest vals h).2 !! l = h !! l.
Proof.
  induction dest as [|d dest IH]; intros i vals h l Hl; [reflexivity |].
  destruct vals as [|v vals]; [reflexivity |]. simpl.
  rewrite fmap_cons, not_elem_of_cons in Hl. destruct Hl as [Hd Hl].
  destruct (dst_conv d v) as [v'|]; [| reflexivity].
  rewrite IH by done. by rewrite lookup_insert_ne.
Qed.

Lemma rows_Scan_frame (dest : list Dest) r (h : gmap nat value) l :
  l ∉ (dst_loc <$> dest) -> (rows_Scan dest r h).2 !! l = h !! l.
Proof.
  intros Hl. unfold rows_Scan.
  destruct (rows_lasterr r); [reflexivity |].
  destruct (rows_closed r); [reflexivity |].
  destruct (rows_lastcols r) as [vals|]; [| reflexivity].
  case_bool_decide; [| reflexivity].
  by apply convertAssignRows_frame.
Qed.

Section QueryScanFrame.
Context {U : Type}.
Implicit Types (row : @RowFunc U) (m : Mem U) (r : Rows).

Lemma writes_within_refl m : writes_within m m.
Proof. exists []. split; [by rewrite app_nil_r | done]. Qed.

Lemma writes_within_trans m1 m2 m3 :
  writes_within m1 m2 -> writes_within m2 m3 -> writes_within m1 m3.
Proof.
  intros (evs1 & Ht1 & Hh1) (evs2 & Ht2 & Hh2).
  exists (evs1 ++ evs2). split; [by rewrite Ht2, Ht1, app_assoc |].
  intros l Hl. rewrite Hh2, Hh1; [done | |];
    intros ds Hds; apply Hl, elem_of_app; auto.
Qed.

Lemma writes_within_emit evs m m' :
  writes_within m m' -> writes_within m (emit evs m').
Proof.
  intros H. eapply writes_within_trans; [exact H |].
  exists evs. split; done.
Qed.

Lemma writes_within_call_row row idx m :
  writes_within m (call_row row idx m).2.
Proof. rewrite call_row_eq. eexists. split; done. Qed.

Lemma writes_within_call_Scan dest r m :
  writes_within m (call_Scan dest r m).2.
Proof.
  unfold call_Scan.
  pose proof (rows_Scan_frame dest r (m_heap m)) as HF.
  destruct (rows_Scan dest r (m_heap m)) as [e h1]. cbn [snd] in *.
  eexists. split; [reflexivity |]. cbn [m_heap].
  intros l Hl. apply HF, Hl, list_elem_of_here.
Qed.

(** Chain the steps of a turn, from its end. *)
Ltac writes_chain :=
  first
    [ apply writes_within_refl
    | apply writes_within_emit; writes_chain
    | match goal with
      | W : writes_within ?a ?b |- writes_within _ ?b =>
        eapply writes_within_trans; [| exact W]; clear W; writes_chain
      end ].

Ltac next_call_row :=
  match goal with
  | |- context [call_row ?row ?idx ?m] =>
    let W := fresh "W" in
    pose proof (writes_within_call_row row idx m) as W;
    destruct (call_row row idx m) as [? ?]; cbn [snd] in W
  end.

Lemma writes_within_scan_row columns row idx err r m :
  writes_within m (scan_row columns row idx err r m).2.
Proof.
  unfold scan_row. destruct (rows_Err r); [writes_chain |].
  next_call_row. destruct a as [l1|]; [| cbn [snd]; writes_chain].
  next_call_row. destruct (Nat.ltb _ 1); [cbn [snd]; writes_chain |].
  next_call_row. destruct (negb _).
  { next_call_row. cbn [snd]. writes_chain. }
  next_call_row.
  match goal with
  | |- context [call_Scan ?d ?r ?m] =>
    pose proof (writes_within_call_Scan d r m) as WS;
    destruct (call_Scan d r m) as [[e|] ?]; cbn [snd] in *
  end; writes_chain.
Qed.

Lemma writes_within_scan_rows columns row :
  forall n idx err r m,
    length (rows_pending r) = n ->
    writes_within m (scan_rows columns row idx err r m).2.
Proof.
  induction n as [|n IH]; intros idx err r m Hn;
    rewrite scan_rows_unfold;
    destruct (rows_Next r) as [[|] r1] eqn:HN;
    try (cbn [snd]; writes_chain).
  - apply rows_Next_true in HN. lia.
  - apply rows_Next_true in HN.
    pose proof (writes_within_scan_row columns row idx err r1
                  (emit [CallNext true] m)) as W.
    destruct (scan_row columns row idx err r1 _) as [[idx1 err1| |e] m1];
      cbn [snd] in *; try writes_chain.
    eapply writes_within_trans; [| apply IH; lia]. writes_chain.
Qed.

(** [Scan] writes only through destinations it handed to [rows.Scan]: a
    location that is in no [rows.Scan] call of the run holds afterwards what
    it held before, however the run ends. *)
Theorem query_Scan_frame (x : query) row m :
  exists evs,
    m_trace (query_Scan x row m).2 = m_trace m ++ evs /\
    forall l,
      (forall ds, CallScan ds ∈ evs -> l ∉ ds) ->
      m_heap (query_Scan x row m).2 !! l = m_heap m !! l.
Proof.
  change (writes_within m (query_Scan x row m).2).
  unfold query_Scan.
  destruct (query_err x); [cbn [snd]; writes_chain |].
  destruct (query_sqlRows x) as [r|]; [| cbn [snd]; writes_chain].
  destruct (rows_Err r); [cbn [snd]; writes_chain |].
  unfold scan_columns. destruct (rows_Columns r) as [columns [e|]].
  { cbn [snd]. writes_chain. }
  destruct (Nat.ltb _ 1); [cbn [snd]; writes_chain |].
  pose proof (writes_within_scan_rows columns row _ 0%Z None r
                (emit [CallColumns] (emit [CallErr] m)) eq_refl) as W.
  destruct (scan_rows columns row 0 None r _) as [[ret r1] m1].
  cbn [snd] in *. writes_chain.
Qed.

End QueryScanFrame.

(** ** A whole result set *)

Lemma convertAssignRows_ok (dest : list Dest) (vals : list value) :
  Forall2 (fun d v => is_Some (dst_conv d v)) dest vals ->
  forall i (h : gmap nat value), (convertAssignRows i dest vals h).1 = None.
Proof.
  induction 1 as [|d v dest vals [v' Hv] _ IH]; intros i h; [reflexivity |].
  simpl. rewrite Hv. apply IH.
Qed.

Lemma rows_Scan_ok columns (dest : list Dest) (vals : list value) rest
    (h : gmap nat value) :
  Forall2 (fun d v => is_Some (dst_conv d v)) dest vals ->
  rows_Scan dest
    {| rows_closed := false; rows_lasterr := None; rows_columns := columns;
       rows_lastcols := Some vals; rows_pending := rest |} h
  = (None, write_row dest vals h).
Proof.
  intros HF. unfold rows_Scan, write_row. simpl.
  rewrite bool_decide_eq_true_2 by (by eapply Forall2_length).
  pose proof (convertAssignRows_ok dest vals HF 0 h) as Hok.
  destruct (convertAssignRows 0 dest vals h) as [e h']. simpl in *.
  by subst e.
Qed.

Lemma scan_rows_binds_all columns (f : Z -> Array) :
  forall rows idx lastcols (m : Mem unit),
    (idx + Z.of_nat (length rows) <= 9223372036854775807)%Z ->
    (forall k vals, rows !! k = Some vals ->
                    row_binds columns f (idx + Z.of_nat k) vals) ->
    exists evs,
      (scan_rows columns (pure_row f) idx None
         {| rows_closed := false; rows_lasterr := None;
            rows_columns := columns; rows_lastcols := lastcols;
            rows_pending := FetchRow <$> rows |} m).1.1 = None /\
      m_heap
        (scan_rows columns (pure_row f) idx None
           {| rows_closed := false; rows_lasterr := None;
              rows_columns := columns; rows_lastcols := lastcols;
              rows_pending := FetchRow <$> rows |} m).2
      = bind_rows f idx rows (m_heap m) /\
      m_trace
        (scan_rows columns (pure_row f) idx None
           {| rows_closed := false; rows_lasterr := None;
              rows_columns := columns; rows_lastcols := lastcols;
              rows_pending := FetchRow <$> rows |} m).2
      = m_trace m ++ evs /\
      count_events is_CallScan evs = length rows.
Proof.
  induction rows as [|vals rows IH]; intros idx lastcols m Hmax Hrows;
    rewrite scan_rows_unfold; cbn [fmap list_fmap].
  - rewrite rows_Next_end. exists [CallNext false]. done.
  - rewrite rows_Next_row.
    destruct (Hrows 0 vals eq_refl) as (ds & Hf & Hne & Hlen & HF).
    rewrite Z.add_0_r in Hf.
    erewrite scan_row_bound;
      [| reflexivity
       | intros k _; by rewrite pure_row_fst
       | done | done
       | by apply rows_Scan_ok ].
    assert (int_incr idx = (idx + 1)%Z) as ->.
    { unfold int_incr. cbn [length] in Hmax.
      destruct (Z.eqb_spec idx 9223372036854775807); lia. }
    match goal with
    | |- context [scan_rows _ _ _ _ _ ?m'] =>
      destruct (IH (idx + 1)%Z (Some vals) m') as (evs & He & Hh & Ht & Hc)
    end.
    { cbn [length] in Hmax. lia. }
    { intros k vals' Hk.
      replace (idx + 1 + Z.of_nat k)%Z with (idx + Z.of_nat (S k))%Z by lia.
      by apply Hrows. }
    cbn [emit m_user m_heap m_trace] in *.
    exists ([CallNext true; CallErr; CallRow idx; CallRow idx; CallRow idx;
             CallRow idx; CallScan (dst_loc <$> ds)] ++ evs).
    split; [exact He |]. split; [| split].
    + rewrite Hh. cbn [bind_rows]. rewrite Hf. reflexivity.
    + rewrite Ht, <- !app_assoc. reflexivity.
    + rewrite count_events_app, Hc. reflexivity.
Qed.

(** The whole result set: with a callback without state that gives, at
    every index below the number of rows, one destination per column, each
    taking its value, [Scan] on a fresh cursor returns nil having bound row
    [k] to the destinations for index [k], for every [k], in order: one
    [rows.Scan] per row, and the memory is that of binding the rows one
    after the other. *)
Theorem query_Scan_binds_all (columns : list string)
    (rows : list (list value)) (f : Z -> Array) (m : Mem unit) :
  columns <> [] ->
  (Z.of_nat (length rows) <= 9223372036854775807)%Z ->
  (forall k vals, rows !! k = Some vals ->
                  row_binds columns f (Z.of_nat k) vals) ->
  exists evs,
    (query_Scan (Query (Some (open_cursor columns rows)) None)
       (pure_row f) m).1.1 = None /\
    m_heap
      (query_Scan (Query (Some (open_cursor columns rows)) None)
         (pure_row f) m).2
    = bind_rows f 0 rows (m_heap m) /\
    m_trace
      (query_Scan (Query (Some (open_cursor columns rows)) None)
         (pure_row f) m).2
    = m_trace m ++ evs /\
    count_events is_CallScan evs = length rows.
Proof.
  intros Hne Hmax Hrows.
  unfold query_Scan, scan_columns, Query, open_cursor.
  cbn [query_err query_sqlRows rows_Err rows_lasterr rows_Columns rows_closed
       rows_columns].
  destruct columns as [|c columns]; [done |]. cbn [length Nat.ltb Nat.leb].
  destruct (scan_rows_binds_all (c :: columns) f rows 0%Z None
              (emit [CallColumns] (emit [CallErr] m)))
    as (evs & He & Hh & Ht & Hc); [lia | exact Hrows |].
  destruct (scan_rows (c :: columns) (pure_row f) 0 None _ _)
    as [[ret r1] m1].
  cbn [fst snd emit m_user m_heap m_trace] in *.
  exists ([CallErr; CallColumns] ++ evs ++ [CallClose]).
  split; [exact He |]. split; [exact Hh |]. split.
  - rewrite Ht, <- !app_assoc. reflexivity.
  - rewrite !count_events_app, Hc.
    change (count_events is_CallScan [CallErr; CallColumns]) with 0.
    change (count_events is_CallScan [CallClose]) with 0. lia.
Qed.

(** ** Further runs on the sample cursors *)

Lemma two_ids_scan_at (f : Z -> Array) :
  scan_at (Query (Some two_ids) None) (pure_row f) (mem0 ∅) ["id"]
    (0%Z, None, two_ids, mem_at_loop).
Proof.
  apply (scan_at_start (Query (Some two_ids) None) (pure_row f) (mem0 ∅)
           ["id"] two_ids); try reflexivity. discriminate.
Qed.

Lemma query_Scan_nil_closed_witness :
  exists r',
    (query_Scan (Query (Some two_ids) None) (pure_row one_cell)
       (mem0 ∅)).1.2 = Some r' /\
    rows_closed r' = true.
Proof.
  apply (query_Scan_nil_closed (Query (Some two_ids) None)
           (pure_row one_cell) (mem0 ∅)).
  reflexivity.
Defined.

Lemma query_Scan_not_begun_witness :
  (query_Scan (Query None None) (pure_row one_cell) (mem0 ∅)).1.1
  = Some ErrDataNotFound /\
  m_user (query_Scan (Query None None) (pure_row one_cell) (mem0 ∅)).2 = tt /\
  m_heap (query_Scan (Query None None) (pure_row one_cell) (mem0 ∅)).2 = ∅.
Proof.
  apply (query_Scan_not_begun (Query None None) (pure_row one_cell)
           (mem0 ∅)).
  reflexivity.
Defined.

Lemma query_Scan_empty_result_witness :
  query_Scan (Query (Some (open_cursor ["id"] [])) None) (pure_row one_cell)
    (mem0 ∅)
  = (None, Some (rows_Close (open_cursor ["id"] [])),
     {| m_user := tt;
        m_heap := ∅;
        m_trace := [CallErr; CallColumns; CallNext false; CallClose] |}).
Proof.
  apply (query_Scan_empty_result ["id"] (pure_row one_cell) (mem0 ∅)).
  discriminate.
Defined.

Lemma query_Scan_twice_witness :
  (query_Scan
     (Query
        (Some {| rows_closed := true;
                 rows_lasterr := None;
                 rows_columns := ["id"];
                 rows_lastcols := Some [VInt 2];
                 rows_pending := [] |})
        None)
     (pure_row one_cell) (mem0 ∅)).1.1
  = Some sql_errRowsClosed.
Proof.
  apply (query_Scan_twice (Query (Some two_ids) None) (pure_row one_cell)
           (mem0 ∅)
           {| rows_closed := true;
              rows_lasterr := None;
              rows_columns := ["id"];
              rows_lastcols := Some [VInt 2];
              rows_pending := [] |}
           (pure_row one_cell) (mem0 ∅)); reflexivity.
Defined.

Lemma query_Scan_stop_witness :
  query_Scan (Query (Some two_ids) None) (pure_row stop_all) (mem0 ∅)
  = (None, Some (rows_Close two_ids_at_first),
     {| m_user := tt;
        m_heap := ∅;
        m_trace :=
          [CallErr; CallColumns; CallNext true; CallErr; CallRow 0;
           CallClose] |}).
Proof.
  apply (query_Scan_stop (Query (Some two_ids) None) (pure_row stop_all)
           (mem0 ∅) ["id"] 0%Z None two_ids mem_at_loop two_ids_at_first);
    try reflexivity.
  apply two_ids_scan_at.
Defined.

Lemma query_Scan_cursor_error_witness :
  (query_Scan (Query (Some interrupted_cursor) None) (pure_row one_cell)
     (mem0 ∅)).1.1
  = Some (foreignError "context canceled").
Proof.
  rewrite
    (query_Scan_cursor_error (Query (Some interrupted_cursor) None)
       (pure_row one_cell) (mem0 ∅) ["id"] 0%Z None interrupted_cursor
       mem_at_loop
       {| rows_closed := false;
          rows_lasterr := Some (foreignError "context canceled");
          rows_columns := ["id"];
          rows_lastcols := Some [VInt 1];
          rows_pending := [FetchRow [VInt 2]] |}
       (foreignError "context canceled")); try reflexivity.
  apply (scan_at_start (Query (Some interrupted_cursor) None)
           (pure_row one_cell) (mem0 ∅) ["id"] interrupted_cursor);
    try reflexivity. discriminate.
Defined.

Lemma query_Scan_bind_failure_witness :
  (query_Scan (Query (Some (open_cursor ["id"] [[VText "x"]; [VInt 2]])) None)
     (pure_row one_int) (mem0 ∅)).1
  = (Some (sql_errScanColumn 0),
     Some {| rows_closed := true;
             rows_lasterr := None;
             rows_columns := ["id"];
             rows_lastcols := Some [VText "x"];
             rows_pending := [FetchRow [VInt 2]] |}).
Proof.
  rewrite
    (query_Scan_bind_failure
       (Query (Some (open_cursor ["id"] [[VText "x"]; [VInt 2]])) None)
       (pure_row one_int) (mem0 ∅) ["id"] 0%Z None
       (open_cursor ["id"] [[VText "x"]; [VInt 2]]) mem_at_loop
       {| rows_closed := false;
          rows_lasterr := None;
          rows_columns := ["id"];
          rows_lastcols := Some [VText "x"];
          rows_pending := [FetchRow [VInt 2]] |}
       [int_dest 0] (sql_errScanColumn 0) ∅); try reflexivity.
  - apply (scan_at_start
             (Query (Some (open_cursor ["id"] [[VText "x"]; [VInt 2]])) None)
             (pure_row one_int) (mem0 ∅) ["id"]
             (open_cursor ["id"] [[VText "x"]; [VInt 2]]));
      try reflexivity. discriminate.
  - intros k _. reflexivity.
  - discriminate.
Defined.

Lemma query_Scan_skip_forever_witness :
  exists evs,
    m_trace (query_Scan (Query (Some two_ids) None) (pure_row skip_all)
               (mem0 ∅)).2
    = m_trace mem_at_loop ++ evs /\
    count_events is_CallScan evs = 0 /\
    (forall i, CallRow i ∈ evs -> i = 0%Z) /\
    m_heap (query_Scan (Query (Some two_ids) None) (pure_row skip_all)
              (mem0 ∅)).2
    = m_heap mem_at_loop.
Proof.
  apply (query_Scan_skip_forever (Query (Some two_ids) None) skip_all
           (mem0 ∅) ["id"] 0%Z None two_ids mem_at_loop).
  - apply two_ids_scan_at.
  - reflexivity.
Defined.

Lemma query_Scan_binds_all_witness :
  exists evs,
    (query_Scan (Query (Some (open_cursor ["id"] [[VInt 1]; [VInt 2]])) None)
       (pure_row one_cell) (mem0 ∅)).1.1 = None /\
    m_heap
      (query_Scan
         (Query (Some (open_cursor ["id"] [[VInt 1]; [VInt 2]])) None)
         (pure_row one_cell) (mem0 ∅)).2
    = bind_rows one_cell 0 [[VInt 1]; [VInt 2]] (m_heap (mem0 ∅)) /\
    m_trace
      (query_Scan
         (Query (Some (open_cursor ["id"] [[VInt 1]; [VInt 2]])) None)
         (pure_row one_cell) (mem0 ∅)).2
    = m_trace (mem0 ∅) ++ evs /\
    count_events is_CallScan evs = length [[VInt 1]; [VInt 2]].
Proof.
  apply (query_Scan_binds_all ["id"] [[VInt 1]; [VInt 2]] one_cell (mem0 ∅)).
  - discriminate.
  - simpl. lia.
  - intros k vals Hk. exists [any_dest 0].
    split; [reflexivity |]. split; [discriminate |]. split; [reflexivity |].
    destruct k as [|[|k]]; simpl in Hk; try discriminate;
      injection Hk as <-; repeat constructor; by eexists.
Defined.

(** ** The user-status handler *)

Section UpdateUserStatusFacts.
Variable ParseInt : string -> Z + error.
Variable UpdateStatus : Z -> bool -> option error.
Variable JSON : Z -> Body -> option error.

(** The use case is called at most once, and with user [n] and flag [b]
    exactly when the id parses to [n] and [is_active] is, letter for
    letter, "true" for [b = true] or "false" for [b = false]; any other
    text, and any id that does not parse, ends the request before the use
    case. *)
Theorem UpdateUserStatus_calls (id is_active : string) (n : Z) (b : bool) :
  length (reply_calls (UpdateUserStatus ParseInt UpdateStatus JSON
                         id is_active)) <= 1 /\
  ((n, b) ∈ reply_calls (UpdateUserStatus ParseInt UpdateStatus JSON
                           id is_active) <->
   ParseInt id = inl n /\
   is_active = (if b then BooleanTextTrue else BooleanTextFalse)).
Proof.
  unfold UpdateUserStatus.
  destruct (ParseInt id) as [userID|err].
  2: { split; [simpl; lia |]. split; [absent_event | intros [[=] _]]. }
  destruct (String.eqb_spec is_active BooleanTextFalse) as [->|Hf].
  { destruct (UpdateStatus userID false); simpl; (split; [lia |]);
      rewrite list_elem_of_singleton; (split;
        [ intros [= -> ->]; done
        | intros [[= ->] Hb]; destruct b; [discriminate | done] ]). }
  destruct (String.eqb_spec is_active BooleanTextTrue) as [->|Ht].
  { destruct (UpdateStatus userID true); simpl; (split; [lia |]);
      rewrite list_elem_of_singleton; (split;
        [ intros [= -> ->]; done
        | intros [[= ->] Hb]; destruct b; [done | discriminate] ]). }
  split; [simpl; lia |]. split; [absent_event |].
  intros [_ ->]. by destruct b.
Qed.

(** The status line and the body disagree exactly when the use case was
    called and failed: the request is then answered with status 400 and a
    body that says 500.  On every other path they agree, and the status is
    200 exactly when the use case was called and returned nil. *)
Theorem UpdateUserStatus_status (id is_active : string) :
  let R := UpdateUserStatus ParseInt UpdateStatus JSON id is_active in
  (body_code (reply_body R) <> reply_status R <->
   exists n b e, reply_calls R = [(n, b)] /\ UpdateStatus n b = Some e) /\
  (body_code (reply_body R) <> reply_status R ->
   reply_status R = StatusBadRequest /\
   body_code (reply_body R) = StatusInternalServerError) /\
  (reply_status R = StatusOK <->
   exists n b, reply_calls R = [(n, b)] /\ UpdateStatus n b = None).
Proof.
  unfold UpdateUserStatus.
  destruct (ParseInt id) as [userID|err].
  2: { simpl. split; [| split]; [split | | split]; try done.
       - by intros (? & ? & ? & [=] & _).
       - by intros (? & ? & [=] & _). }
  assert (forall b,
    let R :=
      match UpdateStatus userID b with
      | Some err =>
        reply JSON StatusBadRequest
          (NewResponseError StatusInternalServerError MsgFailed
             (error_Error err)) [(userID, b)] []
      | None =>
        reply JSON StatusOK (NewResponse StatusOK MsgSuccess)
          [(userID, b)] []
      end in
    (body_code (reply_body R) <> reply_status R <->
     exists n b' e, reply_calls R = [(n, b')] /\
                    UpdateStatus n b' = Some e) /\
    (body_code (reply_body R) <> reply_status R ->
     reply_status R = StatusBadRequest /\
     body_code (reply_body R) = StatusInternalServerError) /\
    (reply_status R = StatusOK <->
     exists n b', reply_calls R = [(n, b')] /\ UpdateStatus n b' = None))
    as Hupdate.
  { intros b. destruct (UpdateStatus userID b) as [e|] eqn:HU; simpl.
    - split; [| split]; [split | | split]; try done.
      + intros _. by exists userID, b, e.
      + intros (n & b' & [= <- <-] & Hn). congruence.
    - split; [| split]; [split | | split]; try done.
      + intros (n & b' & e & [= <- <-] & Hn). congruence.
      + intros _. by exists userID, b. }
  destruct (String.eqb is_active BooleanTextFalse); [apply Hupdate |].
  destruct (String.eqb is_active BooleanTextTrue); [apply Hupdate |].
  simpl. split; [| split]; [split | | split]; try done.
  - by intros (? & ? & ? & [=] & _).
  - by intros (? & ? & [=] & _).
Qed.

End UpdateUserStatusFacts.

(** User 8 cannot be updated: status 400, body 500.  A flag spelt "True" is
    refused before the use case. *)
Lemma UpdateUserStatus_status_witness :
  reply_status
    (UpdateUserStatus sample_ParseInt sample_UpdateStatus sample_JSON
       "8" "true") = StatusBadRequest /\
  body_code
    (reply_body
       (UpdateUserStatus sample_ParseInt sample_UpdateStatus sample_JSON
          "8" "true")) = StatusInternalServerError.
Proof.
  apply (UpdateUserStatus_status sample_ParseInt sample_UpdateStatus
           sample_JSON "8" "true").
  vm_compute. discriminate.
Defined.

Lemma UpdateUserStatus_calls_witness :
  (7%Z, true) ∉
    reply_calls
      (UpdateUserStatus sample_ParseInt sample_UpdateStatus sample_JSON
         "7" "True").
Proof.
  intros H.
  apply (UpdateUserStatus_calls sample_ParseInt sample_UpdateStatus
           sample_JSON "7" "True" 7%Z true) in H.
  destruct H as [_ H]. discriminate H.
Defined.

(** ** The run of [Scan] from a row on *)

Section QueryScanRun.
Context {U : Type}.
Implicit Types (row : @RowFunc U) (m : Mem U) (r : Rows).

(** The loop only adds events. *)
Lemma scan_rows_trace columns row idx err r m :
  exists evs, m_trace (scan_rows columns row idx err r m).2 = m_trace m ++ evs.
Proof.
  destruct (writes_within_scan_rows columns row _ idx err r m eq_refl)
    as (evs & Ht & _).
  by exists evs.
Qed.

(** From a state the loop stands at, the rest of the run of [Scan] starts
    with the next [Next]; if that brings a row and the cursor reports no
    error, the callback is asked next, at the loop's index; if it brings
    none, the run ends with the deferred [Close]. *)
Lemma scan_at_next_call (x : query) row m columns idx err r mi :
  scan_at x row m columns (idx, err, r, mi) ->
  exists evs,
    m_trace (query_Scan x row m).2 = m_trace mi ++ evs /\
    (forall r2, rows_Next r = (true, r2) -> rows_Err r2 = None ->
       exists evs', evs = CallNext true :: CallErr :: CallRow idx :: evs') /\
    (forall r2, rows_Next r = (false, r2) ->
       evs = [CallNext false; CallClose]).
Proof.
  intros Hat. rewrite (scan_at_result _ _ _ _ _ Hat). cbn [scan_rows_from].
  rewrite scan_rows_unfold.
  destruct (rows_Next r) as [[|] r2].
  - destruct (rows_Err r2) as [e|] eqn:HE.
    + unfold scan_row. rewrite HE. cbn [snd emit m_trace].
      eexists. split; [rewrite <- !app_assoc; reflexivity |].
      split; [| intros ? [=]].
      intros ? [= <-]. congruence.
    + destruct (scan_row_first_call columns row idx err r2
                  (emit [CallNext true] mi) HE) as (evs1 & Ht1).
      cbn [emit m_trace] in Ht1.
      destruct (scan_row columns row idx err r2 _) as [[idx1 err1| |e] m1];
        cbn [snd] in Ht1.
      * destruct (scan_rows_trace columns row idx1 err1 r2 m1)
          as (evs2 & Ht2).
        destruct (scan_rows columns row idx1 err1 r2 m1) as [[ret r3] m3].
        cbn [snd emit m_trace] in *.
        exists (CallNext true :: CallErr :: CallRow idx ::
                evs1 ++ evs2 ++ [CallClose]).
        split; [rewrite Ht2, Ht1, <- !app_assoc; reflexivity |].
        split; [| intros ? [=]]. intros _ _ _. by eexists.
      * cbn [snd emit m_trace].
        exists (CallNext true :: CallErr :: CallRow idx ::
                evs1 ++ [CallClose]).
        split; [rewrite Ht1, <- !app_assoc; reflexivity |].
        split; [| intros ? [=]]. intros _ _ _. by eexists.
      * cbn [snd emit m_trace].
        exists (CallNext true :: CallErr :: CallRow idx ::
                evs1 ++ [CallClose]).
        split; [rewrite Ht1, <- !app_assoc; reflexivity |].
        split; [| intros ? [=]]. intros _ _ _. by eexists.
  - cbn [snd emit m_trace]. exists [CallNext false; CallClose].
    split; [by rewrite <- app_assoc |]. split; [intros ? [=] | done].
Qed.

(** The turn of a skipped row. *)
Lemma scan_row_skip columns row idx err r m :
  rows_Err r = None ->
  row_answers row idx 2 (m_user m) (Some []) ->
  scan_row columns row idx err r m
  = (Continue idx err,
     {| m_user := row_calls row idx 2 (m_user m);
        m_heap := m_heap m;
        m_trace := m_trace m ++ [CallErr; CallRow idx; CallRow idx] |}).
Proof.
  intros HE Hans. unfold scan_row. rewrite HE.
  first_answers Hans.
  rewrite !call_row_eq. cbn [emit m_user m_heap m_trace].
  rewrite H0, H1. cbn [len length Nat.ltb Nat.leb].
  by rewrite <- !app_assoc.
Qed.

(** C9: when the row loop stands at index [idx], [Next] brings a row, and
    the callback answers with the empty, non-nil sequence, [Scan] goes on as
    its loop run from the same index [idx] on the cursor moved one row on,
    with the memory unchanged: the skipped row costs one [Next], one [Err]
    and two callback calls, and no [rows.Scan].  In the run of [Scan] these
    events are followed by the next [Next], and if that brings another row
    (and the cursor reports no error) the callback is asked at [idx]
    again. *)
Theorem query_Scan_skip (x : query) row m columns idx err r mi r1 :
  scan_at x row m columns (idx, err, r, mi) ->
  rows_Next r = (true, r1) -> rows_Err r1 = None ->
  row_answers row idx 2 (m_user mi) (Some []) ->
  query_Scan x row m
  = (let '(ret, r', m') :=
       scan_rows columns row idx err r1
         {| m_user := row_calls row idx 2 (m_user mi);
            m_heap := m_heap mi;
            m_trace :=
              m_trace mi ++
              [CallNext true; CallErr; CallRow idx; CallRow idx] |} in
     (ret, Some (rows_Close r'), emit [CallClose] m')) /\
  (exists f, rows_pending r = f :: rows_pending r1) /\
  exists evs,
    m_trace (query_Scan x row m).2
    = m_trace mi ++
      [CallNext true; CallErr; CallRow idx; CallRow idx] ++ evs /\
    (forall r2,
       rows_Next r1 = (true, r2) -> rows_Err r2 = None ->
       exists evs', evs = CallNext true :: CallErr :: CallRow idx :: evs').
Proof.
  intros Hat HN HE Hans.
  assert (scan_row columns row idx err r1 (emit [CallNext true] mi)
          = (Continue idx err,
             {| m_user := row_calls row idx 2 (m_user mi);
                m_heap := m_heap mi;
                m_trace :=
                  m_trace mi ++
                  [CallNext true; CallErr; CallRow idx; CallRow idx] |}))
    as HT.
  { rewrite scan_row_skip by done. cbn [emit m_user m_heap m_trace].
    by rewrite <- !app_assoc. }
  pose proof (scan_at_turn _ _ _ _ _ _ _ _ _ _ _ _ Hat HN HT) as Hat'.
  split; [| split].
  - exact (scan_at_result _ _ _ _ _ Hat').
  - by apply rows_Next_true_pending.
  - destruct (scan_at_next_call _ _ _ _ _ _ _ _ Hat')
      as (evs & Ht & Hnext & _).
    cbn [m_trace] in Ht. exists evs. split; [| exact Hnext].
    by rewrite Ht, <- app_assoc.
Qed.

(** A row that binds costs four evaluations of the callback at the loop's
    index (the nil test, the two length tests, and the arguments of
    [rows.Scan]) and one [rows.Scan]: [Scan] goes on as its loop run from
    the index one up, with the callback's state four calls on and the
    memory as [rows.Scan] left it, and in the run of [Scan] these events are
    followed by the next [Next]; if that brings another row the callback is
    asked at the index one up. *)
Theorem query_Scan_bound_row (x : query) row m columns idx err r mi r1
    ds h' :
  scan_at x row m columns (idx, err, r, mi) ->
  rows_Next r = (true, r1) -> rows_Err r1 = None ->
  row_answers row idx 4 (m_user mi) (Some ds) ->
  ds <> [] -> length ds = length columns ->
  rows_Scan ds r1 (m_heap mi) = (None, h') ->
  query_Scan x row m
  = (let '(ret, r', m') :=
       scan_rows columns row (int_incr idx) None r1
         {| m_user := row_calls row idx 4 (m_user mi);
            m_heap := h';
            m_trace :=
              m_trace mi ++
              [CallNext true; CallErr;
               CallRow idx; CallRow idx; CallRow idx; CallRow idx;
               CallScan (dst_loc <$> ds)] |} in
     (ret, Some (rows_Close r'), emit [CallClose] m')) /\
  exists evs,
    m_trace (query_Scan x row m).2
    = m_trace mi ++
      [CallNext true; CallErr;
       CallRow idx; CallRow idx; CallRow idx; CallRow idx;
       CallScan (dst_loc <$> ds)] ++ evs /\
    (forall r2,
       rows_Next r1 = (true, r2) -> rows_Err r2 = None ->
       exists evs',
         evs = CallNext true :: CallErr :: CallRow (int_incr idx) :: evs').
Proof.
  intros Hat HN HE Hans Hne Hlen HS.
  assert (scan_row columns row idx err r1 (emit [CallNext true] mi)
          = (Continue (int_incr idx) None,
             {| m_user := row_calls row idx 4 (m_user mi);
                m_heap := h';
                m_trace :=
                  m_trace mi ++
                  [CallNext true; CallErr;
                   CallRow idx; CallRow idx; CallRow idx; CallRow idx;
                   CallScan (dst_loc <$> ds)] |}))
    as HT.
  { rewrite (scan_row_bound columns row idx err r1 _ ds h'); try done.
    cbn [emit m_user m_heap m_trace]. by rewrite <- !app_assoc. }
  pose proof (scan_at_turn _ _ _ _ _ _ _ _ _ _ _ _ Hat HN HT) as Hat'.
  split.
  - exact (scan_at_result _ _ _ _ _ Hat').
  - destruct (scan_at_next_call _ _ _ _ _ _ _ _ Hat')
      as (evs & Ht & Hnext & _).
    cbn [m_trace] in Ht. exists evs. split; [| exact Hnext].
    by rewrite Ht, <- app_assoc.
Qed.

End QueryScanRun.

(** ** The row index *)

Lemma count_events_cons p ev evs :
  count_events p (ev :: evs)
  = (if p ev then 1 else 0) + count_events p evs.
Proof.
  change (ev :: evs) with ([ev] ++ evs). rewrite count_events_app.
  f_equal. unfold count_events. rewrite filter_cons.
  destruct (decide (p ev = true)) as [->|Hp]; [reflexivity |].
  by destruct (p ev).
Qed.

Lemma indices_follow_app (evs1 evs2 : list event) :
  forall idx,
    indices_follow idx (evs1 ++ evs2)
    = indices_follow idx evs1 &&
      indices_follow
        (Nat.iter (count_events is_CallScan evs1) int_incr idx) evs2.
Proof.
  induction evs1 as [|ev evs1 IH]; intros idx; [reflexivity |].
  rewrite count_events_cons.
  destruct ev; cbn [app indices_follow is_CallScan Nat.add];
    rewrite ?IH, ?andb_assoc; try reflexivity.
  by rewrite Nat.iter_succ_r.
Qed.

(** What [indices_follow] says of each callback call. *)
Lemma indices_follow_at idx (pre post : list event) i :
  indices_follow idx (pre ++ CallRow i :: post) = true ->
  i = Nat.iter (count_events is_CallScan pre) int_incr idx.
Proof.
  rewrite indices_follow_app. cbn [indices_follow].
  intros H. apply andb_prop in H as [_ H]. apply andb_prop in H as [H _].
  by apply Z.eqb_eq in H.
Qed.

Section QueryScanIndex.
Context {U : Type}.
Implicit Types (row : @RowFunc U) (m : Mem U) (r : Rows).

(** One turn: its callback calls are at the loop's index, and if it goes on,
    the index has gone up by the turn's [rows.Scan] calls. *)
Lemma scan_row_indices columns row idx err r m :
  exists evs,
    m_trace (scan_row columns row idx err r m).2 = m_trace m ++ evs /\
    indices_follow idx evs = true /\
    forall idx1 err1,
      (scan_row columns row idx err r m).1 = Continue idx1 err1 ->
      idx1 = Nat.iter (count_events is_CallScan evs) int_incr idx.
Proof.
  unfold scan_row. destruct (rows_Err r).
  { eexists. cbn [fst snd emit m_trace]. split; [reflexivity |].
    split; [reflexivity | intros ? ? [=]]. }
  rewrite !call_row_eq. cbn [emit m_user m_heap m_trace].
  destruct (row idx (m_user m)).1.
  2: { eexists. cbn [fst snd m_trace].
       split; [rewrite <- !app_assoc; reflexivity |].
       split; [| intros ? ? [=]].
       cbn. by rewrite Z.eqb_refl. }
  destruct (Nat.ltb _ 1).
  { eexists. cbn [fst snd m_trace].
    split; [rewrite <- !app_assoc; reflexivity |].
    split; [cbn; by rewrite Z.eqb_refl |].
    intros ? ? [= <- _]. reflexivity. }
  destruct (negb _).
  { eexists. cbn [fst snd emit m_trace].
    split; [rewrite <- !app_assoc; reflexivity |].
    split; [| intros ? ? [=]].
    cbn. by rewrite Z.eqb_refl. }
  unfold call_Scan. cbn [m_user m_heap m_trace].
  destruct (rows_Scan _ r _) as [[e|] h1]; eexists;
    cbn [fst snd emit m_trace];
    (split; [rewrite <- !app_assoc; reflexivity |]);
    (split; [cbn; by rewrite Z.eqb_refl |]).
  - intros ? ? [=].
  - intros ? ? [= <- _]. reflexivity.
Qed.

Lemma scan_rows_indices columns row :
  forall n idx err r m,
    length (rows_pending r) = n ->
    exists evs,
      m_trace (scan_rows columns row idx err r m).2 = m_trace m ++ evs /\
      indices_follow idx evs = true.
Proof.
  induction n as [|n IH]; intros idx err r m Hn;
    rewrite scan_rows_unfold;
    destruct (rows_Next r) as [[|] r1] eqn:HN;
    try (by exists [CallNext false]).
  - apply rows_Next_true in HN. lia.
  - apply rows_Next_true in HN.
    destruct (scan_row_indices columns row idx err r1
                (emit [CallNext true] m)) as (evs1 & Ht1 & Hi1 & Hc1).
    cbn [emit m_trace] in Ht1.
    destruct (scan_row columns row idx err r1 _) as [[idx1 err1| |e] m1];
      cbn [fst snd] in *.
    + destruct (IH idx1 err1 r1 m1) as (evs2 & Ht2 & Hi2); [lia |].
      exists ([CallNext true] ++ evs1 ++ evs2). split.
      * rewrite Ht2, Ht1, <- !app_assoc. reflexivity.
      * cbn [app indices_follow]. rewrite indices_follow_app, Hi1.
        by rewrite <- (Hc1 idx1 err1 eq_refl).
    + exists ([CallNext true] ++ evs1). split.
      * rewrite Ht1, <- !app_assoc. reflexivity.
      * exact Hi1.
    + exists ([CallNext true] ++ evs1). split.
      * rewrite Ht1, <- !app_assoc. reflexivity.
      * exact Hi1.
Qed.

Lemma query_Scan_indices (x : query) row m :
  exists evs,
    m_trace (query_Scan x row m).2 = m_trace m ++ evs /\
    indices_follow 0 evs = true.
Proof.
  unfold query_Scan.
  destruct (query_err x); [by eexists |].
  destruct (query_sqlRows x) as [r|]; [| by eexists].
  destruct (rows_Err r); [by eexists |].
  unfold scan_columns. destruct (rows_Columns r) as [columns [e|]].
  { eexists. cbn [snd emit m_trace].
    split; [rewrite <- !app_assoc; reflexivity | reflexivity]. }
  destruct (Nat.ltb _ 1).
  { eexists. cbn [snd emit m_trace].
    split; [rewrite <- !app_assoc; reflexivity | reflexivity]. }
  destruct (scan_rows_indices columns row _ 0%Z None r
              (emit [CallColumns] (emit [CallErr] m)) eq_refl)
    as (evs & Ht & Hi).
  destruct (scan_rows columns row 0 None r _) as [[ret r1] m1].
  cbn [snd emit m_trace] in *.
  exists ([CallErr; CallColumns] ++ evs ++ [CallClose]). split.
  - rewrite Ht, <- !app_assoc. reflexivity.
  - cbn [app indices_follow]. rewrite indices_follow_app, Hi.
    reflexivity.
Qed.

(** In every run of [Scan], each call of the callback passes as index the
    number of [rows.Scan] calls made before it in that run, that is, of rows
    bound so far: skipped rows are not counted.  (The count is taken below
    the largest [int], where [idx++] does not wrap.) *)
Theorem query_Scan_index_counts_bound_rows (x : query) row m :
  exists evs,
    m_trace (query_Scan x row m).2 = m_trace m ++ evs /\
    forall pre i post,
      evs = pre ++ CallRow i :: post ->
      (Z.of_nat (count_events is_CallScan pre) <= 9223372036854775807)%Z ->
      i = Z.of_nat (count_events is_CallScan pre).
Proof.
  destruct (query_Scan_indices x row m) as (evs & Ht & Hi).
  exists evs. split; [exact Ht |].
  intros pre i post -> Hn.
  rewrite (indices_follow_at _ _ _ _ Hi). by apply iter_int_incr.
Qed.

End QueryScanIndex.

(** Two rows bound by a callback that counts its calls: the second row is
    asked for at index 1, after one [rows.Scan], and the callback has been
    called eight times in all. *)
Lemma counting_cell_run :
  query_Scan (Query (Some two_ids) None) counting_cell
    {| m_user := 0; m_heap := ∅; m_trace := [] |}
  = (None,
     Some {| rows_closed := true;
             rows_lasterr := None;
             rows_columns := ["id"];
             rows_lastcols := Some [VInt 2];
             rows_pending := [] |},
     {| m_user := 8;
        m_heap := {[ 0 := VInt 2 ]};
        m_trace :=
          [CallErr; CallColumns;
           CallNext true; CallErr;
           CallRow 0; CallRow 0; CallRow 0; CallRow 0; CallScan [0];
           CallNext true; CallErr;
           CallRow 1; CallRow 1; CallRow 1; CallRow 1; CallScan [0];
           CallNext false; CallClose] |}).
Proof. vm_compute. reflexivity. Qed.

Lemma query_Scan_skip_witness :
  exists evs,
    m_trace (query_Scan (Query (Some two_ids) None) (pure_row skip_all)
               (mem0 ∅)).2
    = m_trace mem_at_loop ++
      [CallNext true; CallErr; CallRow 0; CallRow 0] ++ evs /\
    (forall r2,
       rows_Next two_ids_at_first = (true, r2) -> rows_Err r2 = None ->
       exists evs', evs = CallNext true :: CallErr :: CallRow 0 :: evs').
Proof.
  refine
    (proj2 (proj2
       (query_Scan_skip (Query (Some two_ids) None) (pure_row skip_all)
          (mem0 ∅) ["id"] 0%Z None two_ids mem_at_loop two_ids_at_first
          _ _ _ _))).
  - apply two_ids_scan_at.
  - reflexivity.
  - reflexivity.
  - intros k _. reflexivity.
Defined.

Lemma query_Scan_bound_row_witness :
  exists evs,
    m_trace
      (query_Scan (Query (Some two_ids) None) counting_cell
         {| m_user := 0; m_heap := ∅; m_trace := [] |}).2
    = [CallErr; CallColumns] ++
      [CallNext true; CallErr;
       CallRow 0; CallRow 0; CallRow 0; CallRow 0; CallScan [0]] ++ evs /\
    (forall r2,
       rows_Next two_ids_at_first = (true, r2) -> rows_Err r2 = None ->
       exists evs', evs = CallNext true :: CallErr :: CallRow 1 :: evs').
Proof.
  refine
    (proj2
       (query_Scan_bound_row (Query (Some two_ids) None) counting_cell
          {| m_user := 0; m_heap := ∅; m_trace := [] |} ["id"] 0%Z None
          two_ids
          {| m_user := 0; m_heap := ∅; m_trace := [CallErr; CallColumns] |}
          two_ids_at_first [any_dest 0] {[ 0 := VInt 1 ]}
          _ _ _ _ _ _ _)).
  - apply (scan_at_start (Query (Some two_ids) None) counting_cell
             {| m_user := 0; m_heap := ∅; m_trace := [] |} ["id"] two_ids);
      try reflexivity. discriminate.
  - reflexivity.
  - reflexivity.
  - intros k _. reflexivity.
  - discriminate.
  - reflexivity.
  - vm_compute. reflexivity.
Defined.
